(** * Nintendo news bot: the scraping core of [index.js]

    A shallow embedding of [fetchArticleDetails], [fetchNintendoNews] and the
    title-length guard of the [nintendonews] command handler, and the
    properties of the specification that they decide.

    Conventions of the embedding.
    - A JavaScript string is a [string]; one [ascii] stands for one code unit.
    - A value that may be [undefined] is an [option]; [None] is [undefined].
    - A cheerio object is the list of the elements it holds, each element
      carried with the chain of its ancestors.
    - An [async] function returns a [completion]: the value its promise
      resolves to, or the error it rejects with.
    - Calls to [console.log] and [console.error] leave no trace in the model.
    - [Array.prototype.sort] and [new Date] behave as in Node's engine; what
      the host decides ([toLowerCase], the time zone, the network and the
      HTML parser) is a variable of the section [Host]. *)

From Stdlib Require Import String Ascii List ZArith Lia Bool Arith.
From Stdlib Require Import Permutation Sorted.
Import ListNotations.

Set Warnings "-register-all".

Open Scope list_scope.
Open Scope string_scope.

(** ** JavaScript strings *)

Module Js.

(** [s.startsWith(p)] *)
Fixpoint startsWith (s p : string) : bool :=
  match p, s with
  | EmptyString, _ => true
  | String _ _, EmptyString => false
  | String b p', String a s' => Ascii.eqb a b && startsWith s' p'
  end.

(** [s.includes(p)] *)
Fixpoint includes (s p : string) : bool :=
  startsWith s p
  || match s with
     | EmptyString => false
     | String _ s' => includes s' p
     end.

(** [s.indexOf(p)], counted from [i]; [-1] when [p] does not occur. *)
Fixpoint indexOfFrom (i : Z) (s p : string) : Z :=
  if startsWith s p then i
  else match s with
       | EmptyString => (-1)%Z
       | String _ s' => indexOfFrom (i + 1) s' p
       end.

Definition indexOf (s p : string) : Z := indexOfFrom 0 s p.

Fixpoint drop (n : nat) (s : string) : string :=
  match n, s with
  | O, _ => s
  | S _, EmptyString => EmptyString
  | S n', String _ s' => drop n' s'
  end.

Fixpoint take (n : nat) (s : string) : string :=
  match n, s with
  | O, _ => EmptyString
  | S _, EmptyString => EmptyString
  | S n', String a s' => String a (take n' s')
  end.

(** [s.substring(a, b)]: the arguments are swapped when [a > b] and both
    are clamped to the length of [s]. *)
Definition substring (s : string) (a b : nat) : string :=
  take (Nat.max a b - Nat.min a b) (drop (Nat.min a b) s).

(** [s.substring(a)] *)
Definition substringFrom (s : string) (a : nat) : string := drop a s.

(** White space and line terminators, as [trim] sees them, among the code
    units below 256: TAB, LF, VT, FF, CR, SPACE and NBSP. *)
Definition isWhiteSpace (c : ascii) : bool :=
  let n := nat_of_ascii c in
  ((9 <=? n)%nat && (n <=? 13)%nat) || (n =? 32)%nat || (n =? 160)%nat.

Fixpoint trimStart (s : string) : string :=
  match s with
  | EmptyString => EmptyString
  | String c s' => if isWhiteSpace c then trimStart s' else s
  end.

Fixpoint trimEnd (s : string) : string :=
  match s with
  | EmptyString => EmptyString
  | String c s' =>
      match trimEnd s' with
      | EmptyString => if isWhiteSpace c then EmptyString else String c EmptyString
      | t => String c t
      end
  end.

(** [s.trim()] *)
Definition trim (s : string) : string := trimEnd (trimStart s).

(** [s.replace(pat, rep)] with a string pattern: the first occurrence only. *)
Fixpoint replace (s pat rep : string) : string :=
  if startsWith s pat then rep ++ drop (String.length pat) s
  else match s with
       | EmptyString => EmptyString
       | String c s' => String c (replace s' pat rep)
       end.

Definition isEmpty (s : string) : bool :=
  match s with EmptyString => true | _ => false end.

(** Truthiness of a value that is a string or [undefined]. *)
Definition truthy (v : option string) : bool :=
  match v with
  | Some s => negb (isEmpty s)
  | None => false
  end.

(** [a || b] *)
Definition or (a b : option string) : option string :=
  if truthy a then a else b.

(** [a || d] where [d] is a string literal *)
Definition orString (a : option string) (d : string) : string :=
  match or a (Some d) with Some s => s | None => d end.

Definition isDigit (c : ascii) : bool :=
  let n := nat_of_ascii c in (48 <=? n)%nat && (n <=? 57)%nat.

Definition quote : string := String (ascii_of_nat 34) EmptyString.
Definition newline : string := String (ascii_of_nat 10) EmptyString.

End Js.

(** ** Completions of asynchronous functions *)

Inductive completion (A : Type) : Type :=
| Normal (value : A)
| Throw (error : string).

Arguments Normal {A} value.
Arguments Throw {A} error.

Definition bind {A B : Type} (c : completion A) (k : A -> completion B) : completion B :=
  match c with
  | Normal a => k a
  | Throw e => Throw e
  end.

(** [try { body } catch (error) { handler }] *)
Definition try_catch {A : Type} (body : completion A) (handler : string -> completion A)
  : completion A :=
  match body with
  | Normal a => Normal a
  | Throw e => handler e
  end.

Notation "x <- c ;; k" := (bind c (fun x => k))
  (at level 61, c at next level, right associativity).

(** ** The parsed document and the cheerio queries the code makes *)

Inductive node : Type :=
| Text (data : string)
| Element (name : string) (attribs : list (string * string)) (children : list node).

Definition document := list node.

(** An element of a document, with its ancestors from the nearest up. *)
Record cursor : Type := { ancestors : list node; self : node }.

Module Cheerio.

Definition attribsOf (n : node) : list (string * string) :=
  match n with
  | Text _ => []
  | Element _ a _ => a
  end.

Definition childrenOf (n : node) : list node :=
  match n with
  | Text _ => []
  | Element _ _ c => c
  end.

Fixpoint lookup (name : string) (a : list (string * string)) : option string :=
  match a with
  | [] => None
  | (k, v) :: a' => if String.eqb k name then Some v else lookup name a'
  end.

Fixpoint textContent (n : node) : string :=
  match n with
  | Text s => s
  | Element _ _ c => String.concat EmptyString (map textContent c)
  end.

(** Every element at or below [n], in document order. *)
Fixpoint walk (up : list node) (n : node) : list cursor :=
  match n with
  | Text _ => []
  | Element _ _ c =>
      {| ancestors := up; self := n |} :: flat_map (walk (n :: up)) c
  end.

(** *** Selectors

    The selectors of the source are compound selectors
    [tag.class[name="value"]] (each part optional) joined by the
    descendant combinator. *)

Record compound : Type :=
  { c_tag : string; c_class : string; c_attr : option (string * string) }.

Fixpoint span (p : ascii -> bool) (s : string) : string * string :=
  match s with
  | EmptyString => (EmptyString, EmptyString)
  | String c s' =>
      if p c then let (a, b) := span p s' in (String c a, b)
      else (EmptyString, s)
  end.

Fixpoint split (p : ascii -> bool) (s : string) : list string :=
  match s with
  | EmptyString => [EmptyString]
  | String c s' =>
      if p c then EmptyString :: split p s'
      else match split p s' with
           | [] => [String c EmptyString]
           | w :: ws => String c w :: ws
           end
  end.

Definition words (p : ascii -> bool) (s : string) : list string :=
  filter (fun w => negb (Js.isEmpty w)) (split p s).

Definition isNot (stops : string) (c : ascii) : bool :=
  negb (Js.includes stops (String c EmptyString)).

Definition parseAttr (s : string) : option (string * string) :=
  match s with
  | String "[" r =>
      let (name, r1) := span (isNot "=") r in
      match r1 with
      | String "=" (String q v) =>
          if Ascii.eqb q (ascii_of_nat 34)
          then let (value, _) := span (isNot Js.quote) v in Some (name, value)
          else None
      | _ => None
      end
  | _ => None
  end.

Definition parseCompound (s : string) : compound :=
  let (tag, r1) := span (isNot ".[") s in
  let (cls, r2) :=
    match r1 with
    | String "." r => span (isNot "[") r
    | _ => (EmptyString, r1)
    end in
  {| c_tag := tag; c_class := cls; c_attr := parseAttr r2 |}.

Definition parseSelector (s : string) : list compound :=
  map parseCompound (words (Ascii.eqb " ") s).

Definition hasClass (cls : string) (n : node) : bool :=
  match lookup "class" (attribsOf n) with
  | Some v => existsb (String.eqb cls) (words Js.isWhiteSpace v)
  | None => false
  end.

Definition matchesCompound (c : compound) (n : node) : bool :=
  match n with
  | Text _ => false
  | Element name a _ =>
      (Js.isEmpty (c_tag c) || String.eqb (c_tag c) name)
      && (Js.isEmpty (c_class c) || hasClass (c_class c) n)
      && match c_attr c with
         | None => true
         | Some (k, v) =>
             match lookup k a with
             | Some v' => String.eqb v v'
             | None => false
             end
         end
  end.

(** The compounds [cs], innermost first, are matched by ancestors taken in
    order from the nearest up. *)
Fixpoint matchesUp (cs : list compound) (up : list node) : bool :=
  match cs, up with
  | [], _ => true
  | _ :: _, [] => false
  | c :: cs', a :: up' =>
      if matchesCompound c a then matchesUp cs' up' else matchesUp cs up'
  end.

Definition matches (selector : string) (e : cursor) : bool :=
  match rev (parseSelector selector) with
  | [] => false
  | c :: cs => matchesCompound c (self e) && matchesUp cs (ancestors e)
  end.

(** [$(selector)] on a loaded document *)
Definition select (doc : document) (selector : string) : list cursor :=
  filter (matches selector) (flat_map (walk []) doc).

(** [$element.find(selector)] for a single element *)
Definition find (e : cursor) (selector : string) : list cursor :=
  filter (matches selector)
         (flat_map (walk (self e :: ancestors e)) (childrenOf (self e))).

(** [$element.is(selector)] for a single element *)
Definition is_ (e : cursor) (selector : string) : bool := matches selector e.

(** [.parent()] of a single element; the document itself is no element. *)
Definition parent (e : cursor) : list cursor :=
  match ancestors e with
  | [] => []
  | p :: up => [{| ancestors := up; self := p |}]
  end.

(** [.first()] *)
Definition first (sel : list cursor) : list cursor := firstn 1 sel.

(** [.attr(name)]: the attribute of the first element held. *)
Definition attr (sel : list cursor) (name : string) : option string :=
  match sel with
  | [] => None
  | e :: _ => lookup name (attribsOf (self e))
  end.

(** [.text()]: the text of every element held, concatenated. *)
Definition text (sel : list cursor) : string :=
  String.concat EmptyString (map (fun e => textContent (self e)) sel).

End Cheerio.

(** ** The date pattern

    [/^(\d{2}\/\d{2}\/\d{2})/]: two digits, a slash, two digits, a slash and
    two digits at the start of a string. *)

(** The text [NN/NN/NN] made of six characters. *)
Definition dateToken (d1 d2 d3 d4 d5 d6 : ascii) : string :=
  String d1 (String d2 (String "/" (String d3 (String d4 (String "/"
    (String d5 (String d6 EmptyString))))))).

(** Six digits. *)
Definition isDateToken (d1 d2 d3 d4 d5 d6 : ascii) : Prop :=
  forallb Js.isDigit [d1; d2; d3; d4; d5; d6] = true.

(** The six digits of the match and the text after it. *)
Definition dateShape (s : string)
  : option (ascii * ascii * ascii * ascii * ascii * ascii * string) :=
  match s with
  | String a (String b (String s1 (String c (String d (String s2
      (String e (String f rest))))))) =>
      if Ascii.eqb s1 "/" && Ascii.eqb s2 "/" && forallb Js.isDigit [a; b; c; d; e; f]
      then Some (a, b, c, d, e, f, rest)
      else None
  | _ => None
  end.

(** [rawTitle.match(/^(\d{2}\/\d{2}\/\d{2})/)]: the matched text, if any. *)
Definition matchDate (s : string) : option string :=
  match dateShape s with
  | Some (a, b, c, d, e, f, _) => Some (dateToken a b c d e f)
  | None => None
  end.

(** ** Dates

    [new Date(s)] for the only strings the code passes to it: the tokens
    [NN/NN/NN] that the date pattern of the fallback path extracts.  Node
    reads such a token with the engine's legacy date parser: the three
    numbers are month, day and year, unless the first one cannot be a day of
    the month, in which case they are year, month and day; a year below 50
    is counted from 2000 and one from 50 to 99 from 1900; the date is a local
    midnight.  Any other string is an invalid date here. *)

Module JsDate.

Open Scope Z_scope.

Definition msPerDay : Z := 86400000.

Definition DayFromYear (y : Z) : Z :=
  365 * (y - 1970) + (y - 1969) / 4 - (y - 1901) / 100 + (y - 1601) / 400.

Definition InLeapYear (y : Z) : bool :=
  (y mod 4 =? 0) && (negb (y mod 100 =? 0) || (y mod 400 =? 0)).

(** Days of the year before month [m] (from 0). *)
Definition daysBeforeMonth (leap : bool) (m : Z) : Z :=
  let l := if leap then 1 else 0 in
  nth (Z.to_nat m)
      [0; 31; 59 + l; 90 + l; 120 + l; 151 + l; 181 + l; 212 + l; 243 + l;
       273 + l; 304 + l; 334 + l] 0.

(** [MakeDay(year, month, date)], month from 0. *)
Definition MakeDay (year month date : Z) : Z :=
  let ym := year + month / 12 in
  let mn := month mod 12 in
  DayFromYear ym + daysBeforeMonth (InLeapYear ym) mn + date - 1.

Definition IsDay (x : Z) : bool := (1 <=? x) && (x <=? 31).
Definition IsMonth (x : Z) : bool := (1 <=? x) && (x <=? 12).

Definition digit (c : ascii) : Z := Z.of_nat (nat_of_ascii c) - 48.

(** The three numbers of a token [NN/NN/NN]. *)
Definition components (s : string) : option (Z * Z * Z) :=
  match dateShape s with
  | Some (a, b, c, d, e, f, EmptyString) =>
      Some (10 * digit a + digit b, 10 * digit c + digit d, 10 * digit e + digit f)
  | _ => None
  end.

(** Year, month (from 1) and day that the legacy parser composes. *)
Definition compose (comp : Z * Z * Z) : option (Z * Z * Z) :=
  let '(c0, c1, c2) := comp in
  let '(year, month, day) :=
    if negb (IsDay c0) then (c0, c1, c2) else (c2, c0, c1) in
  let year :=
    if (0 <=? year) && (year <=? 49) then year + 2000
    else if (50 <=? year) && (year <=? 99) then year + 1900
    else year in
  if IsMonth month && IsDay day then Some (year, month, day) else None.

Definition calendar (s : string) : option (Z * Z * Z) :=
  match components s with
  | Some comp => compose comp
  | None => None
  end.

(** The day number of the date, or [None] for an invalid date. *)
Definition day (s : string) : option Z :=
  match calendar s with
  | Some (y, m, d) => Some (MakeDay y (m - 1) d)
  | None => None
  end.

(** Days of month [m] (from 1) of year [y]. *)
Definition daysInMonth (y m : Z) : Z :=
  if m =? 2 then (if InLeapYear y then 29 else 28)
  else if (m =? 4) || (m =? 6) || (m =? 9) || (m =? 11) then 30
  else 31.

End JsDate.

(** ** [Array.prototype.sort]

    The sort of Node's engine on an array of fewer than 64 elements: the
    leading run is counted (and reversed when it descends strictly), then
    every later element is put in place by binary insertion.  The comparator
    is consulted through [order < 0] only, a [NaN] counting as [+0].  The
    engine cuts a longer array into such runs and merges them. *)

Module V8.

Section Sort.

Context {A : Type}.
Variable comparefn : A -> A -> option Z.

Definition callCompare (x y : A) : Z :=
  match comparefn x y with
  | Some v => v
  | None => 0%Z
  end.

Fixpoint extendRun (isDescending : bool) (previous : A) (l : list A)
  : list A * list A :=
  match l with
  | [] => ([], [])
  | current :: l' =>
      let order := callCompare current previous in
      if (if isDescending then (0 <=? order)%Z else (order <? 0)%Z)
      then ([], l)
      else let (run, rest) := extendRun isDescending current l' in
           (current :: run, rest)
  end.

Definition countAndMakeRun (l : list A) : list A * list A :=
  match l with
  | low :: high :: l' =>
      let isDescending := (callCompare high low <? 0)%Z in
      let (run, rest) := extendRun isDescending high l' in
      let run := low :: high :: run in
      (if isDescending then rev run else run, rest)
  | _ => (l, [])
  end.

Fixpoint search (fuel : nat) (pivot : A) (sorted : list A) (left right : nat) : nat :=
  match fuel with
  | O => left
  | S fuel' =>
      if (left <? right)%nat then
        let mid := (left + (right - left) / 2)%nat in
        match nth_error sorted mid with
        | Some x =>
            if (callCompare pivot x <? 0)%Z
            then search fuel' pivot sorted left mid
            else search fuel' pivot sorted (mid + 1)%nat right
        | None => left
        end
      else left
  end.

Definition insert (sorted : list A) (pivot : A) : list A :=
  let left := search (length sorted) pivot sorted 0 (length sorted) in
  (firstn left sorted ++ pivot :: skipn left sorted)%list.

Definition binaryInsertionSort (sorted rest : list A) : list A :=
  fold_left insert rest sorted.

Definition sort (l : list A) : list A :=
  let (run, rest) := countAndMakeRun l in
  binaryInsertionSort run rest.

End Sort.

(** [a.slice(0, n)] for a count [n] *)
Definition slice {A : Type} (a : list A) (n : nat) : list A := firstn n a.

End V8.

(** ** The data model *)

Record NewsItem : Type :=
  { title : string;
    link : string;
    date : string;
    imageUrl : option string;
    description : string }.

Record ArticleDetails : Type :=
  { details_imageUrl : string;
    details_description : string }.

(** An entry of [allImages]. *)
Record image : Type := { src : string; alt : string }.

Definition NINTENDO_NEWS_URL : string := "https://www.nintendo.com/us/whatsnew/".

Definition origin : string := "https://www.nintendo.com".

Definition placeholder : string := "Nintendo news update".

Definition potentialSelectors : list string :=
  [ ".WhatIsNewPage-module__item";
    ".news-item";
    ".grid-item";
    ".nw-c-NewsItem";
    "article";
    ".card";
    ".link-block";
    "li.news-list-item";
    ".NintendoCard-module__main";
    ".COMPT-module__tile";
    ".WhatsNewHighlightModule-module__tile" ].

(** [$(...).each((index, element) => ...)] with the array the callback pushes
    to passed along; no callback of the source returns [false]. *)
Fixpoint each {A St : Type} (f : nat -> A -> St -> St) (index : nat) (l : list A) (s : St) : St :=
  match l with
  | [] => s
  | x :: l' => each f (S index) l' (f index x s)
  end.

Definition push {A : Type} (a : list A) (x : A) : list A := (a ++ [x])%list.

(** Lines 166-172: the link of an anchor kept by the fallback path. *)
Definition fallbackLink (link : string) : string :=
  if negb (Js.includes link "://")
  then if Js.startsWith link "/" then origin ++ link else origin ++ "/" ++ link
  else link.

(** Lines 212-215 and 241: the link of a node of the selector path. *)
Definition selectorLink (element : cursor) : string :=
  let link := Cheerio.attr (Cheerio.find element "a") "href" in
  let link :=
    if negb (Js.truthy link) && Cheerio.is_ element "a"
    then Cheerio.attr [element] "href" else link in
  let fullLink :=
    match link with
    | Some l => if Js.truthy link && Js.startsWith l "/" then Some (origin ++ l) else link
    | None => link
    end in
  Js.orString fullLink NINTENDO_NEWS_URL.

(** The selector [meta[name="value"]]. *)
Definition metaSelector (name value : string) : string :=
  "meta[" ++ name ++ "=" ++ Js.quote ++ value ++ Js.quote ++ "]".

(** Lines 79-86: the first candidate with a match, or the empty string. *)
Fixpoint selectSelector (doc : document) (candidates : list string)
  (selectedSelector : string) (itemsFound : nat) : string * nat :=
  match candidates with
  | [] => (selectedSelector, itemsFound)
  | selector :: rest =>
      let itemsFound := length (Cheerio.select doc selector) in
      if (0 <? itemsFound)%nat then (selector, itemsFound)
      else selectSelector doc rest selectedSelector itemsFound
  end.

(** Lines 206-209 and 232-234: the derived title and description of a node. *)
Definition derivedTitle (element : cursor) : string :=
  let title := Js.trim (Cheerio.text (Cheerio.find element "h3")) in
  let title := if Js.isEmpty title then Js.trim (Cheerio.text (Cheerio.find element "h2")) else title in
  let title := if Js.isEmpty title then Js.trim (Cheerio.text (Cheerio.find element ".title")) else title in
  if Js.isEmpty title then Js.trim (Cheerio.text (Cheerio.find element ".heading")) else title.

Definition derivedDescription (element : cursor) : string :=
  let description := Js.trim (Cheerio.text (Cheerio.find element "p")) in
  let description :=
    if Js.isEmpty description
    then Js.trim (Cheerio.text (Cheerio.find element ".description")) else description in
  if Js.isEmpty description
  then Js.trim (Cheerio.text (Cheerio.find element ".summary")) else description.

(** Lines 202-246: the item a node of the selector path gives, if retained. *)
Definition buildItem (element : cursor) : option NewsItem :=
  let title := derivedTitle element in
  let fullLink := selectorLink element in
  let date := Js.trim (Cheerio.text (Cheerio.find element ".DateUtility-module__date")) in
  let date := if Js.isEmpty date then Js.trim (Cheerio.text (Cheerio.find element ".date")) else date in
  let date := if Js.isEmpty date then Js.trim (Cheerio.text (Cheerio.find element "time")) else date in
  let imageUrl := Cheerio.attr (Cheerio.find element "img") "src" in
  let imageUrl :=
    if negb (Js.truthy imageUrl)
    then Cheerio.attr (Cheerio.find element ".image img") "src" else imageUrl in
  let imageUrl :=
    if negb (Js.truthy imageUrl)
    then Cheerio.attr (Cheerio.find element "picture source") "srcset" else imageUrl in
  let imageUrl :=
    match imageUrl with
    | Some i =>
        if Js.truthy imageUrl && negb (Js.startsWith i "http")
        then Some (origin ++ i) else imageUrl
    | None => imageUrl
    end in
  let description := derivedDescription element in
  if negb (Js.isEmpty title) || negb (Js.isEmpty description)
  then Some {| title := if Js.isEmpty title then "Nintendo News Update" else title;
               link := fullLink;
               date := date;
               imageUrl := imageUrl;
               description := description |}
  else None.

(** Lines 199-247: the callback of the selector path. *)
Definition newsItem (limit : nat) (index : nat) (element : cursor)
  (newsItems : list NewsItem) : list NewsItem :=
  if (limit <=? index)%nat then newsItems
  else match buildItem element with
       | Some item => push newsItems item
       | None => newsItems
       end.

(** Lines 141-152: the image nearest above an anchor, three levels up at most. *)
Fixpoint parentImage (levels : nat) (imageUrl : option string) (parentElement : list cursor)
  : option string :=
  match levels with
  | O => imageUrl
  | S levels' =>
      if Js.truthy imageUrl then imageUrl
      else match parentElement with
           | p :: _ =>
               let img := Cheerio.first (Cheerio.find p "img") in
               let imageUrl :=
                 if (0 <? length img)%nat
                 then Js.or (Cheerio.attr img "src") (Cheerio.attr img "data-src")
                 else imageUrl in
               parentImage levels' imageUrl (Cheerio.parent p)
           | [] => parentImage levels' imageUrl parentElement
           end
  end.

(** Lines 450-462 of the [nintendonews] handler: the title-length guard, from
    the title and description of an item to those of the embed. *)
Definition truncateTitle (title description : string) : string * string :=
  if negb (Js.isEmpty title) && (250 <? String.length title)%nat then
    let breakPoint := Js.indexOf title "." in
    if (10 <? breakPoint)%Z && (breakPoint <? 240)%Z then
      let cut := Z.to_nat (breakPoint + 1) in
      (Js.trim (Js.substring title 0 cut),
       Js.trim (Js.substringFrom title cut)
       ++ (if negb (Js.isEmpty description)
           then Js.newline ++ Js.newline ++ description else EmptyString))
    else
      (Js.substring title 0 250 ++ "...",
       Js.substringFrom title 250
       ++ (if negb (Js.isEmpty description)
           then "..." ++ Js.newline ++ Js.newline ++ description else "..."))
  else (title, description).

(** ** The functions that reach the host

    [toLowerCase] is [String.prototype.toLowerCase]; [LocalTZA] is the offset
    of local time from UTC, in milliseconds, at a local time; [axios_get] is
    the body that [axios.get] answers with, or the error it rejects with;
    [load] is cheerio's [load]. *)

Section Host.

Variable toLowerCase : string -> string.
Variable LocalTZA : Z -> Z.
Variable axios_get : string -> completion string.
Variable load : string -> completion document.

(** The time value of [new Date(s)]; [None] is [NaN]. *)
Definition Date_valueOf (s : string) : option Z :=
  match JsDate.day s with
  | Some d => let t := (d * JsDate.msPerDay)%Z in Some (t - LocalTZA t)%Z
  | None => None
  end.

(** Lines 22-48. *)
Definition fetchArticleDetails (url : string) : completion ArticleDetails :=
  try_catch
    (response <- axios_get url ;;
     doc <- load response ;;
     let S := Cheerio.select doc in
     let imageUrl :=
       Js.or (Cheerio.attr (S (metaSelector "property" "og:image")) "content")
      (Js.or (Cheerio.attr (S (metaSelector "name" "twitter:image")) "content")
      (Js.or (Cheerio.attr (S ".article-header img") "src")
      (Js.or (Cheerio.attr (Cheerio.first (S ".article-content img")) "src")
             (Cheerio.attr (Cheerio.first (S "img")) "src")))) in
     let description :=
       Js.or (Cheerio.attr (S (metaSelector "property" "og:description")) "content")
      (Js.or (Cheerio.attr (S (metaSelector "name" "description")) "content")
      (Js.or (Some (Js.trim (Cheerio.text (Cheerio.first (S ".article-content p")))))
             (Some EmptyString))) in
     Normal {| details_imageUrl := Js.orString imageUrl EmptyString;
               details_description := Js.orString description placeholder |})
    (fun error =>
       Normal {| details_imageUrl := EmptyString; details_description := placeholder |}).

(** Lines 90-105: the images of the page that look like news thumbnails. *)
Definition collectImage (i : nat) (img : cursor) (allImages : list image) : list image :=
  let src := Cheerio.attr [img] "src" in
  let alt := Js.orString (Cheerio.attr [img] "alt") EmptyString in
  match src with
  | Some s =>
      if Js.truthy src
         && (Js.includes (toLowerCase alt) "news"
             || Js.includes (toLowerCase (Cheerio.text (Cheerio.parent img))) "news"
             || Js.includes (toLowerCase s) "news")
      then push allImages
             {| src := if Js.startsWith s "/" then origin ++ s else s; alt := alt |}
      else allImages
  | None => allImages
  end.

(** Lines 114-182: the callback of the fallback path. *)
Definition newsLink (allImages : list image) (i : nat) (el : cursor)
  (newsLinks : list NewsItem) : list NewsItem :=
  let text := Js.trim (Cheerio.text [el]) in
  let link := Cheerio.attr [el] "href" in
  match link with
  | Some href =>
      if negb (Js.isEmpty text) && Js.truthy link && Js.includes text "Read more" then
        let rawTitle := Js.trim (Js.replace text "Read more" EmptyString) in
        let dateMatch := matchDate rawTitle in
        let date := match dateMatch with Some d => d | None => EmptyString end in
        let title :=
          match dateMatch with
          | Some d => Js.trim (Js.substringFrom rawTitle (String.length d))
          | None => rawTitle
          end in
        let imageUrl := parentImage 3 (Some EmptyString) (Cheerio.parent el) in
        let imageUrl :=
          if negb (Js.truthy imageUrl) && (0 <? length allImages)%nat then
            match List.find
                    (fun img =>
                       negb (Js.isEmpty (alt img)) && Js.includes title (alt img)
                       || negb (Js.isEmpty (alt img))
                          && Js.includes (alt img) (Js.substring title 0 20))
                    allImages with
            | Some bestImageMatch => Some (src bestImageMatch)
            | None => imageUrl
            end
          else imageUrl in
        push newsLinks
          {| title := title;
             link := fallbackLink href;
             date := date;
             imageUrl := imageUrl;
             description := placeholder |}
      else newsLinks
  | None => newsLinks
  end.

(** Lines 185-189: the comparator of the fallback path; [None] is [NaN]. *)
Definition compareNews (a b : NewsItem) : option Z :=
  if Js.isEmpty (date a) then Some 1%Z
  else if Js.isEmpty (date b) then Some (-1)%Z
  else match Date_valueOf (date b), Date_valueOf (date a) with
       | Some tb, Some ta => Some (tb - ta)%Z
       | _, _ => None
       end.

(** Lines 107-193: the fallback path. *)
Definition fallback (doc : document) (allImages : list image) (limit : nat)
  : list NewsItem :=
  let newsLinks := each (newsLink allImages) 0 (Cheerio.select doc "a") [] in
  V8.slice (V8.sort compareNews newsLinks) limit.

(** Lines 199-250: the selector path. *)
Definition structured (doc : document) (selectedSelector : string) (limit : nat)
  : list NewsItem :=
  each (newsItem limit) 0 (Cheerio.select doc selectedSelector) [].

(** Lines 56-250: the listing page once loaded. *)
Definition parseListing (doc : document) (limit : nat) : list NewsItem :=
  let '(selectedSelector, itemsFound) :=
    selectSelector doc potentialSelectors EmptyString 0 in
  let allImages := each collectImage 0 (Cheerio.select doc "img") [] in
  if Js.isEmpty selectedSelector
  then fallback doc allImages limit
  else structured doc selectedSelector limit.

(** Lines 51-255. *)
Definition fetchNintendoNews (limit : nat) : completion (list NewsItem) :=
  try_catch
    (response <- axios_get NINTENDO_NEWS_URL ;;
     doc <- load response ;;
     Normal (parseListing doc limit))
    (fun error => Normal []).

End Host.

(** ** Notions the properties are stated with *)

(** What [fetchArticleDetails] answers when it finds nothing. *)
Definition defaultDetails : ArticleDetails :=
  {| details_imageUrl := EmptyString; details_description := placeholder |}.

(** The selectors [fetchArticleDetails] queries, in the order of the source. *)
Definition recognizedSelectors : list string :=
  [ metaSelector "property" "og:image";
    metaSelector "name" "twitter:image";
    ".article-header img";
    ".article-content img";
    "img";
    metaSelector "property" "og:description";
    metaSelector "name" "description";
    ".article-content p" ].

(** The selector matches nothing in the document. *)
Definition noMatch (doc : document) (selector : string) : Prop :=
  length (Cheerio.select doc selector) = 0.

(** An absolute URL starts with a scheme and a colon: a letter, then letters,
    digits, [+], [-] or [.]. *)
Definition isAlpha (c : ascii) : bool :=
  let n := nat_of_ascii c in
  ((65 <=? n)%nat && (n <=? 90)%nat) || ((97 <=? n)%nat && (n <=? 122)%nat).

Fixpoint schemeEnds (s : string) : bool :=
  match s with
  | EmptyString => false
  | String c s' =>
      if Ascii.eqb c ":" then true
      else if isAlpha c || Js.isDigit c || Js.includes "+-." (String c EmptyString)
           then schemeEnds s' else false
  end.

Definition isAbsolute (url : string) : bool :=
  match url with
  | EmptyString => false
  | String c s => isAlpha c && schemeEnds s
  end.

(** The items of the nodes that are retained, whatever the limit. *)
Definition retained (nodes : list cursor) : list NewsItem :=
  flat_map (fun e => match buildItem e with Some item => [item] | None => [] end) nodes.

(** The selector path as the specification words it: a dropped node is not
    counted toward the limit. *)
Definition extractFrom_spec (nodes : list cursor) (limit : nat) : list NewsItem :=
  firstn limit (retained nodes).

(** The title and the date of a kept anchor as the specification words
    them: the marker stripped from the text, the date token split off the
    front, and nothing else done to the text. *)
Definition titleAndDate_spec (text : string) : string * string :=
  let raw := Js.replace text "Read more" EmptyString in
  match matchDate raw with
  | Some d => (Js.substringFrom raw (String.length d), d)
  | None => (raw, EmptyString)
  end.

(** A date token that names a day of the calendar, read as month, day and
    year: a month from 1 to 12 and a day that the month has. *)
Definition realDate (s : string) : bool :=
  match JsDate.components s with
  | Some (m, d, y) =>
      let year := if (y <=? 49)%Z then (y + 2000)%Z else (y + 1900)%Z in
      (1 <=? m)%Z && (m <=? 12)%Z && (1 <=? d)%Z && (d <=? JsDate.daysInMonth year m)%Z
  | None => false
  end.

(** Year, month and day of a real date. *)
Definition calendarOf (s : string) : Z * Z * Z :=
  match JsDate.components s with
  | Some (m, d, y) => (if (y <=? 49)%Z then (y + 2000)%Z else (y + 1900)%Z, m, d)
  | None => (0, 0, 0)%Z
  end.

(** Calendar order: [a] is the same day as [b] or an earlier one. *)
Definition notAfter (a b : Z * Z * Z) : Prop :=
  let '(ya, ma, da) := a in
  let '(yb, mb, db) := b in
  (ya < yb \/ (ya = yb /\ (ma < mb \/ (ma = mb /\ da <= db))))%Z.

(** [a] may stand before [b] in a list that has the newest first and the
    undated last. *)
Definition newestFirst (a b : NewsItem) : Prop :=
  date b = EmptyString
  \/ (date a <> EmptyString /\ date b <> EmptyString
      /\ notAfter (calendarOf (date b)) (calendarOf (date a))).

(** The day number of the date of an item, and the order of the items by it. *)
Definition dayNumber (n : NewsItem) : Z :=
  match JsDate.day (date n) with
  | Some d => d
  | None => 0%Z
  end.

Definition byDay (a b : NewsItem) : Prop :=
  date b = EmptyString
  \/ (date a <> EmptyString /\ date b <> EmptyString /\ (dayNumber b <= dayNumber a)%Z).

(** An item of the fallback path whose date, if any, is a real date. *)
Definition wellDated (n : NewsItem) : Prop :=
  date n = EmptyString \/ realDate (date n) = true.

(** Local midnights keep the order of the days they start. *)
Definition midnightsInOrder (LocalTZA : Z -> Z) : Prop :=
  forall d1 d2 : Z,
    (d1 < d2)%Z ->
    (d1 * JsDate.msPerDay - LocalTZA (d1 * JsDate.msPerDay)
     < d2 * JsDate.msPerDay - LocalTZA (d2 * JsDate.msPerDay))%Z.

(** [s.repeat(n)] for a one-character [s] *)
Fixpoint repeatChar (c : ascii) (n : nat) : string :=
  match n with
  | O => EmptyString
  | S n' => String c (repeatChar c n')
  end.

(** *** Sample inputs *)

Definition anchor (href text : string) : node :=
  Element "a" [("href", href)] [Text text].

Definition page (body : list node) : document :=
  [Element "html" [] [Element "head" [] []; Element "body" [] body]].

(** Two [article] nodes: the first has neither title nor description. *)
Definition listingWithEmptyNode : document :=
  page [ Element "article" [] [anchor "/us/whatsnew/first" EmptyString];
         Element "article" [] [Element "h3" [] [Text "Second"]; anchor "/us/whatsnew/second" "more"] ].

(** A [.news-item] whose link is relative to the page, next to [article]s. *)
Definition listingWithRelativeLink : document :=
  page [ Element "div" [("class", "news-item")]
           [Element "h3" [] [Text "Direct"]; anchor "whatsnew/direct" "more"];
         Element "article" [] [Element "h3" [] [Text "Other"]];
         Element "article" [] [Element "h3" [] [Text "Another"]] ].

(** A flat list of anchors, as the fallback path expects it. *)
Definition flatListing : document :=
  page [ anchor "/us/whatsnew/a" "A plain note Read more";
         anchor "/us/whatsnew/b" "02/15/24 Second Read more";
         anchor "/us/whatsnew/c" "03/01/24 Third Read more";
         anchor "/us/whatsnew/d" "no marker here" ].

(** A flat list whose second anchor starts with a token that is no date. *)
Definition listingWithBadDate : document :=
  page [ anchor "/us/whatsnew/first" "01/01/24 First Read more";
         anchor "/us/whatsnew/second" "25/12/23 Second Read more";
         anchor "/us/whatsnew/third" "03/01/24 Third Read more" ].

(** The second anchor of [flatListing], on its own. *)
Definition sampleAnchor : cursor :=
  {| ancestors := []; self := anchor "/us/whatsnew/b" "02/15/24 Second Read more" |}.

(** An anchor with a date, a title and the marker. *)
Definition datedAnchor : cursor :=
  {| ancestors := []; self := anchor "/article/1" "03/15/24 New Update - Read more" |}.

(** An article page with none of the recognized elements. *)
Definition barePage : document :=
  page [ Element "div" [] [Text "Nothing to see"] ].

Definition sampleItem (d : string) : NewsItem :=
  {| title := "News"; link := NINTENDO_NEWS_URL; date := d;
     imageUrl := None; description := placeholder |}.

(** 260 characters, periods at 5 and at 120. *)
Definition titleWithEarlyPeriod : string :=
  repeatChar "a" 5 ++ "." ++ repeatChar "a" 114 ++ "." ++ repeatChar "a" 139.

(** 260 characters, one period, at 120. *)
Definition titleWithPeriod : string :=
  repeatChar "a" 120 ++ "." ++ repeatChar "a" 139.

(** 260 characters, no period. *)
Definition titleWithoutPeriod : string := repeatChar "a" 260.

(** Sample hosts: lower case on the letters A to Z, local time at offset 0
    from UTC, a network that answers every request or none, and a parser
    that gives [doc]. *)
Definition asciiLower (c : ascii) : ascii :=
  let n := nat_of_ascii c in
  if (65 <=? n)%nat && (n <=? 90)%nat then ascii_of_nat (n + 32) else c.

Fixpoint lower (s : string) : string :=
  match s with
  | EmptyString => EmptyString
  | String c s' => String (asciiLower c) (lower s')
  end.

Definition utc (t : Z) : Z := 0%Z.

Definition online (url : string) : completion string := Normal "<html>".

Definition offline (url : string) : completion string := Throw "ECONNREFUSED".

Definition parsed (doc : document) (html : string) : completion document := Normal doc.

(** ** The command and message handlers

    The parts of the [interactionCreate] and [messageCreate] handlers that
    compute: what is fetched for an item, what the embed of an item holds,
    which channel the news go to, and which reply a mention gets. *)

(** Lines 437-443 of [index.js]: what the details of the article add to an
    item. *)
Definition mergeDetails (news : NewsItem) (articleDetails : ArticleDetails) : NewsItem :=
  let image :=
    if negb (Js.truthy (imageUrl news))
       && negb (Js.isEmpty (details_imageUrl articleDetails))
    then Some (details_imageUrl articleDetails) else imageUrl news in
  let text :=
    if String.eqb (description news) placeholder
       && negb (String.eqb (details_description articleDetails) placeholder)
    then details_description articleDetails else description news in
  {| title := title news; link := link news; date := date news;
     imageUrl := image; description := text |}.

(** Line 432: the item lacks an image or a description of its own, and has
    a link to follow. *)
Definition needsDetails (news : NewsItem) : bool :=
  (negb (Js.truthy (imageUrl news)) || String.eqb (description news) placeholder)
  && negb (Js.isEmpty (link news)).

(** Lines 470-475: the description the embed is given, if any. *)
Definition embedDescription (description : string) : option string :=
  if negb (Js.isEmpty description)
  then Some (if (4000 <? String.length description)%nat
             then Js.substring description 0 4000 ++ "..."
             else description)
  else None.

(** What the embed of an item is built with (lines 465-485). *)
Record embed : Type :=
  { embed_title : string;
    embed_url : string;
    embed_description : option string;
    embed_published : option string;
    embed_image : option string }.

(** Lines 450-485: the embed of an item, once its details are merged. *)
Definition newsEmbed (news : NewsItem) : embed :=
  let '(title, description) := truncateTitle (title news) (description news) in
  {| embed_title := title;
     embed_url := link news;
     embed_description := embedDescription description;
     embed_published := if negb (Js.isEmpty (date news)) then Some (date news) else None;
     embed_image := if Js.truthy (imageUrl news) then imageUrl news else None |}.

(** A channel of the guild, as the handlers look at it: its name and its
    type, 0 for a text channel. *)
Record channel : Type := { channel_name : string; channel_type : nat }.


(** Lines 342-353: the first allowed name that a text channel of the guild
    has, with that channel. *)
Fixpoint findAllowedChannel (cache : list channel) (names : list string)
  : option (channel * string) :=
  match names with
  | [] => None
  | allowedChannel :: rest =>
      match List.find (fun ch => String.eqb (channel_name ch) allowedChannel
                                 && (channel_type ch =? 0)%nat) cache with
      | Some foundChannel => Some (foundChannel, allowedChannel)
      | None => findAllowedChannel cache rest
      end
  end.


(** *** Mentions

    [content.replace(/<@!?(\d+)>/g, '')] on the text of a message. *)

(** The length of the mention that starts the string, if one does. *)
Definition mentionLength (s : string) : option nat :=
  match s with
  | String c1 (String c2 r) =>
      if Ascii.eqb c1 "<" && Ascii.eqb c2 "@" then
        let (bang, r1) :=
          match r with
          | String c3 r' => if Ascii.eqb c3 "!" then (1, r') else (0, r)
          | EmptyString => (0, r)
          end in
        let (digits, r2) := Cheerio.span Js.isDigit r1 in
        match r2 with
        | String c4 _ =>
            if negb (Js.isEmpty digits) && Ascii.eqb c4 ">"
            then Some (2 + bang + String.length digits + 1)
            else None
        | EmptyString => None
        end
      else None
  | _ => None
  end.

(** Every character of the string is a digit. *)
Fixpoint allDigits (s : string) : bool :=
  match s with
  | EmptyString => true
  | String c s' => Js.isDigit c && allDigits s'
  end.

(** The text without its mentions; [skip] characters of a mention are still
    to be passed over. *)
Fixpoint stripMentionsFrom (skip : nat) (s : string) : string :=
  match s with
  | EmptyString => EmptyString
  | String c s' =>
      match skip with
      | S k => stripMentionsFrom k s'
      | O =>
          match mentionLength s with
          | Some n => stripMentionsFrom (n - 1) s'
          | None => String c (stripMentionsFrom 0 s')
          end
      end
  end.

Definition stripMentions (s : string) : string := stripMentionsFrom 0 s.

(** The branches of the [messageCreate] handler (lines 331-368 of the
    second file), in the order of the source. *)
Inductive mentionReply : Type :=
| Greeting
| HelpEmbed
| NewsCommandHint
| SetupCommandHint
| SpellingRemark
| NewsCommandHintAgain
| NotUnderstood.

Definition replyTo (content : string) : mentionReply :=
  if String.eqb content "hello" || String.eqb content "hi" then Greeting
  else if String.eqb content "help" || String.eqb content "commands" then HelpEmbed
  else if Js.includes content "nitendonews" || Js.includes content "search news"
       then NewsCommandHint
  else if Js.includes content "setupchannels" then SetupCommandHint
  else if Js.includes content "nitendo" then SpellingRemark
  else if Js.includes content "nitendo news" then NewsCommandHintAgain
  else NotUnderstood.

Section Handlers.

Variable toLowerCase : string -> string.
Variable axios_get : string -> completion string.
Variable load : string -> completion document.

(** Lines 432-447 of [index.js]: the item after the details of its article
    are fetched and merged, when it needs them. *)
Definition enrich (news : NewsItem) : completion NewsItem :=
  if needsDetails news
  then try_catch
         (articleDetails <- fetchArticleDetails axios_get load (link news) ;;
          Normal (mergeDetails news articleDetails))
         (fun detailsError => Normal news)
  else Normal news.


(** Lines 321-369 of the second file: the reply to a message, if any.
    [authorIsBot] is [message.author.bot] and [mentioned] is
    [message.mentions.has(client.user)]. *)
Definition messageCreate (authorIsBot mentioned : bool) (content : string)
  : option mentionReply :=
  if authorIsBot then None
  else if mentioned
       then Some (replyTo (toLowerCase (Js.trim (stripMentions content))))
       else None.

End Handlers.

(** *** Sample inputs of the handlers *)

(** An article page with Open Graph metadata. *)
Definition articlePage : document :=
  [Element "html" []
     [Element "head" []
        [Element "meta" [("property", "og:image"); ("content", "https://cdn.example/cover.png")] [];
         Element "meta" [("property", "og:description"); ("content", "A long read")] [];
         Element "meta" [("name", "description"); ("content", "Another text")] []];
      Element "body" [] [Element "img" [("src", "/inline.png")] []]]].

Definition guildWithVoiceChannel : list channel :=
  [ {| channel_name := "nintendo-news"; channel_type := 2 |};
    {| channel_name := "gaming-news"; channel_type := 0 |};
    {| channel_name := "general"; channel_type := 0 |} ].

(** * Properties *)

(** ** The sort *)

Section SortFacts.

Context {A : Type}.
Variable comparefn : A -> A -> option Z.



Lemma extendRun_app (desc : bool) (l : list A) (previous : A) :
  (fst (V8.extendRun comparefn desc previous l)
   ++ snd (V8.extendRun comparefn desc previous l))%list = l.
Proof.
  revert previous. induction l as [|x l IH]; intros previous; simpl; [reflexivity|].
  destruct (if desc then _ else _); simpl; [reflexivity|].
  specialize (IH x). destruct (V8.extendRun comparefn desc x l). simpl in *.
  now rewrite IH.
Qed.

Lemma countAndMakeRun_permutation (l : list A) :
  Permutation l (fst (V8.countAndMakeRun comparefn l)
                 ++ snd (V8.countAndMakeRun comparefn l))%list.
Proof.
  destruct l as [|low [|high l]]; simpl; try reflexivity.
  pose proof (extendRun_app (V8.callCompare comparefn high low <? 0)%Z l high) as E.
  destruct (V8.extendRun comparefn _ high l) as [run rest]. simpl in *.
  rewrite <- E at 1.
  change (low :: high :: (run ++ rest))%list with ((low :: high :: run) ++ rest)%list.
  apply Permutation_app_tail.
  destruct (V8.callCompare comparefn high low <? 0)%Z.
  - apply Permutation_rev.
  - reflexivity.
Qed.

Lemma insert_permutation (sorted : list A) (pivot : A) :
  Permutation (pivot :: sorted) (V8.insert comparefn sorted pivot).
Proof.
  unfold V8.insert.
  set (k := V8.search _ _ _ _ _ _).
  rewrite <- (firstn_skipn k sorted) at 1.
  apply Permutation_middle.
Qed.

Lemma binaryInsertionSort_permutation (rest sorted : list A) :
  Permutation (sorted ++ rest)%list (V8.binaryInsertionSort comparefn sorted rest).
Proof.
  unfold V8.binaryInsertionSort.
  revert sorted. induction rest as [|x rest IH]; intros sorted; simpl.
  - now rewrite app_nil_r.
  - rewrite <- IH. rewrite <- insert_permutation.
    symmetry. apply Permutation_middle.
Qed.

Lemma sort_permutation (l : list A) : Permutation l (V8.sort comparefn l).
Proof.
  unfold V8.sort.
  pose proof (countAndMakeRun_permutation l) as E.
  destruct (V8.countAndMakeRun comparefn l) as [run rest]. simpl in E.
  rewrite E. apply binaryInsertionSort_permutation.
Qed.

End SortFacts.

Section Sorted.

Context {A : Type}.
Variable R : A -> A -> Prop.

Lemma StronglySorted_app_inv (l1 l2 : list A) :
  StronglySorted R (l1 ++ l2)%list ->
  StronglySorted R l1 /\ StronglySorted R l2
  /\ (forall a b, In a l1 -> In b l2 -> R a b).
Proof.
  induction l1 as [|x l1 IH]; simpl; intros H.
  - repeat split; [constructor | assumption | intros a b []].
  - apply StronglySorted_inv in H. destruct H as [H HF].
    destruct (IH H) as (H1 & H2 & H3).
    rewrite Forall_app in HF. destruct HF as [HF1 HF2].
    repeat split; [now constructor | assumption |].
    intros a b [<-|Ha] Hb.
    + rewrite Forall_forall in HF2. now apply HF2.
    + now apply H3.
Qed.

Lemma StronglySorted_app (l1 l2 : list A) :
  StronglySorted R l1 -> StronglySorted R l2 ->
  (forall a b, In a l1 -> In b l2 -> R a b) ->
  StronglySorted R (l1 ++ l2)%list.
Proof.
  induction l1 as [|x l1 IH]; simpl; intros H1 H2 H3; [assumption|].
  apply StronglySorted_inv in H1. destruct H1 as [H1 HF].
  constructor.
  - apply IH; auto.
  - rewrite Forall_app. split; [assumption|].
    rewrite Forall_forall. intros b Hb. apply H3; auto.
Qed.

Lemma StronglySorted_rev (l : list A) :
  StronglySorted (fun a b => R b a) l -> StronglySorted R (rev l).
Proof.
  induction 1 as [|x l Hs IH HF]; simpl; [constructor|].
  apply StronglySorted_app; [assumption | repeat constructor |].
  intros a b Ha [<-|[]]. rewrite Forall_forall in HF.
  apply HF. now apply in_rev.
Qed.

Lemma StronglySorted_nth (l : list A) :
  StronglySorted R l ->
  forall i j a b, (i < j)%nat ->
    nth_error l i = Some a -> nth_error l j = Some b -> R a b.
Proof.
  induction 1 as [|x l Hs IH HF]; intros i j a b Hij Ha Hb.
  - now destruct i.
  - destruct j as [|j]; [lia|]. simpl in Hb.
    destruct i as [|i]; simpl in Ha.
    + injection Ha as <-. rewrite Forall_forall in HF.
      apply HF. eapply nth_error_In; eassumption.
    + apply (IH i j); auto. lia.
Qed.

Lemma StronglySorted_weaken (Q : A -> Prop) (R' : A -> A -> Prop) (l : list A) :
  (forall a b, Q a -> Q b -> R a b -> R' a b) ->
  Forall Q l -> StronglySorted R l -> StronglySorted R' l.
Proof.
  intros HR HQ Hs. induction Hs as [|x l Hs IH HF]; [constructor|].
  apply Forall_cons_iff in HQ. destruct HQ as [Qx HQ].
  constructor; [auto|].
  rewrite Forall_forall in *. intros b Hb. apply HR; auto.
Qed.

End Sorted.

Section SortSorted.

Context {A : Type}.
Variable comparefn : A -> A -> option Z.
Variable R : A -> A -> Prop.
Variable P : A -> Prop.

Hypothesis R_total : forall x y, R x y \/ R y x.
Hypothesis R_trans : forall x y z, R x y -> R y z -> R x z.
Hypothesis compare_R :
  forall x y, P x -> P y -> (R y x <-> (0 <= V8.callCompare comparefn x y)%Z).

Let before (x y : A) : Prop := (V8.callCompare comparefn x y < 0)%Z.

Lemma before_R (x y : A) : P x -> P y -> before x y -> R x y.
Proof.
  intros Px Py H. destruct (R_total x y) as [|H']; [assumption|].
  apply (compare_R x y Px Py) in H'. unfold before in H. lia.
Qed.

Lemma not_before_R (x y : A) : P x -> P y -> ~ before x y -> R y x.
Proof.
  intros Px Py H. apply (compare_R x y Px Py). unfold before in H. lia.
Qed.

Lemma before_trans_R (x y z : A) :
  P x -> P y -> P z -> before x y -> R y z -> before x z.
Proof.
  intros Px Py Pz H1 H2.
  destruct (Z_lt_ge_dec (V8.callCompare comparefn x z) 0) as [|H3]; [assumption|].
  assert (R z x) as H4 by (apply (compare_R x z Px Pz); lia).
  assert (R y x) as H5 by eauto.
  apply (compare_R x y Px Py) in H5. unfold before in H1. lia.
Qed.

Lemma extendRun_ascending (l : list A) (previous : A) :
  P previous -> Forall P l ->
  StronglySorted R (previous :: fst (V8.extendRun comparefn false previous l)).
Proof.
  revert previous. induction l as [|x l IH]; intros previous Pp Pl; simpl.
  - repeat constructor.
  - apply Forall_cons_iff in Pl. destruct Pl as [Px Pl].
    destruct (Z.ltb_spec (V8.callCompare comparefn x previous) 0) as [|Hge]; simpl.
    + repeat constructor.
    + specialize (IH x Px Pl).
      destruct (V8.extendRun comparefn false x l) as [run rest]. simpl in *.
      assert (R previous x) as Hpx by (apply not_before_R; auto; unfold before; lia).
      constructor; [assumption|].
      constructor; [assumption|].
      apply StronglySorted_inv in IH as [_ HF].
      eapply Forall_impl; [|exact HF]. intros b Hb. simpl in Hb. eauto.
Qed.

Lemma extendRun_descending (l : list A) (previous : A) :
  P previous -> Forall P l ->
  StronglySorted (fun a b => R b a)
                 (previous :: fst (V8.extendRun comparefn true previous l)).
Proof.
  revert previous. induction l as [|x l IH]; intros previous Pp Pl; simpl.
  - repeat constructor.
  - apply Forall_cons_iff in Pl. destruct Pl as [Px Pl].
    destruct (Z.leb_spec 0 (V8.callCompare comparefn x previous)) as [|Hlt]; simpl.
    + repeat constructor.
    + specialize (IH x Px Pl).
      destruct (V8.extendRun comparefn true x l) as [run rest]. simpl in *.
      assert (R x previous) as Hpx by (apply before_R; auto).
      constructor; [assumption|].
      constructor; [assumption|].
      apply StronglySorted_inv in IH as [_ HF].
      eapply Forall_impl; [|exact HF]. intros b Hb. simpl in Hb. eauto.
Qed.

Lemma extendRun_P (desc : bool) (l : list A) (previous : A) :
  Forall P l ->
  Forall P (fst (V8.extendRun comparefn desc previous l))
  /\ Forall P (snd (V8.extendRun comparefn desc previous l)).
Proof.
  intros Pl. rewrite <- (extendRun_app comparefn desc l previous) in Pl.
  now apply Forall_app in Pl.
Qed.

Lemma countAndMakeRun_sorted (l : list A) :
  Forall P l ->
  StronglySorted R (fst (V8.countAndMakeRun comparefn l))
  /\ Forall P (fst (V8.countAndMakeRun comparefn l))
  /\ Forall P (snd (V8.countAndMakeRun comparefn l)).
Proof.
  intros Pl.
  assert (Forall P (fst (V8.countAndMakeRun comparefn l))
          /\ Forall P (snd (V8.countAndMakeRun comparefn l))) as HP.
  { apply Forall_app. eapply Permutation_Forall; [|exact Pl].
    apply countAndMakeRun_permutation. }
  split; [|exact HP]. clear HP.
  destruct l as [|low [|high l]]; cbn [V8.countAndMakeRun fst];
    [constructor | repeat constructor |].
  apply Forall_cons_iff in Pl. destruct Pl as [Plow Pl].
  apply Forall_cons_iff in Pl. destruct Pl as [Phigh Pl].
  destruct (Z.ltb_spec (V8.callCompare comparefn high low) 0) as [Hlt|Hge].
  - pose proof (extendRun_descending l high Phigh Pl) as Hs.
    destruct (V8.extendRun comparefn true high l) as [run rest]. cbn [fst] in *.
    apply StronglySorted_rev.
    assert (R high low) as Hhl by (apply before_R; auto).
    constructor; [assumption|].
    constructor; [assumption|].
    apply StronglySorted_inv in Hs as [_ HF].
    eapply Forall_impl; [|exact HF]. intros b Hb. simpl in Hb. eauto.
  - pose proof (extendRun_ascending l high Phigh Pl) as Hs.
    destruct (V8.extendRun comparefn false high l) as [run rest]. cbn [fst] in *.
    assert (R low high) as Hhl by (apply not_before_R; auto; unfold before; lia).
    constructor; [assumption|].
    constructor; [assumption|].
    apply StronglySorted_inv in Hs as [_ HF].
    eapply Forall_impl; [|exact HF]. intros b Hb. simpl in Hb. eauto.
Qed.

Lemma search_spec (fuel : nat) (pivot : A) (s : list A) :
  P pivot -> Forall P s -> StronglySorted R s ->
  forall left right,
    (left <= right <= length s)%nat -> (right - left <= fuel)%nat ->
    (forall i a, (i < left)%nat -> nth_error s i = Some a -> R a pivot) ->
    (forall i a, (right <= i)%nat -> nth_error s i = Some a -> before pivot a) ->
    let k := V8.search comparefn fuel pivot s left right in
    (k <= length s)%nat
    /\ (forall i a, (i < k)%nat -> nth_error s i = Some a -> R a pivot)
    /\ (forall i a, (k <= i)%nat -> nth_error s i = Some a -> before pivot a).
Proof.
  intros Pp Ps Hs. rewrite Forall_forall in Ps.
  induction fuel as [|fuel IH]; intros left right Hlr Hfuel Hleft Hright;
    cbn [V8.search]; cbv zeta.
  - assert (left = right) as -> by lia. repeat split; auto; lia.
  - destruct (Nat.ltb_spec left right) as [Hlt|Hge].
    2:{ assert (left = right) as -> by lia. repeat split; auto; lia. }
    set (mid := (left + (right - left) / 2)%nat).
    assert (left <= mid < right)%nat as Hmid.
    { unfold mid. pose proof (Nat.div_lt (right - left) 2). lia. }
    destruct (nth_error s mid) as [x|] eqn:Hx.
    2:{ apply nth_error_None in Hx. lia. }
    assert (P x) as Px by (apply Ps; eapply nth_error_In; eassumption).
    destruct (Z.ltb_spec (V8.callCompare comparefn pivot x) 0) as [Hb|Hnb].
    + apply (IH left mid); auto; [lia | lia |].
      intros i a Hi Ha.
      destruct (Nat.eq_dec i mid) as [->|Hne].
      * rewrite Hx in Ha. now injection Ha as <-.
      * apply (before_trans_R pivot x a); auto.
        -- apply Ps. eapply nth_error_In; eassumption.
        -- apply (StronglySorted_nth R s Hs mid i); auto. lia.
    + apply (IH (mid + 1)%nat right); auto; [lia | lia |].
      intros i a Hi Ha.
      assert (R x pivot) as Hxp by (apply not_before_R; auto; unfold before; lia).
      destruct (Nat.eq_dec i mid) as [->|Hne].
      * rewrite Hx in Ha. now injection Ha as <-.
      * apply (R_trans a x pivot); auto.
        apply (StronglySorted_nth R s Hs i mid); auto. lia.
Qed.

Lemma insert_sorted (s : list A) (pivot : A) :
  P pivot -> Forall P s -> StronglySorted R s ->
  StronglySorted R (V8.insert comparefn s pivot).
Proof.
  intros Pp Ps Hs. unfold V8.insert.
  assert (forall i a, (i < 0)%nat -> nth_error s i = Some a -> R a pivot) as H0
    by (intros i a Hi _; lia).
  assert (forall i a, (length s <= i)%nat -> nth_error s i = Some a -> before pivot a)
    as Hn.
  { intros i a Hi Ha. apply nth_error_None in Hi. congruence. }
  destruct (search_spec (length s) pivot s Pp Ps Hs 0 (length s)
              ltac:(lia) ltac:(lia) H0 Hn) as (Hk & Hlow & Hhigh).
  clear H0 Hn.
  set (k := V8.search comparefn (length s) pivot s 0 (length s)) in *.
  pose proof (firstn_skipn k s) as E.
  rewrite <- E in Hs. apply StronglySorted_app_inv in Hs.
  destruct Hs as (H1 & H2 & H3).
  rewrite Forall_forall in Ps.
  apply StronglySorted_app; [assumption | |].
  - constructor; [assumption|].
    rewrite Forall_forall. intros b Hb.
    destruct (In_nth_error _ _ Hb) as [j Hj].
    rewrite nth_error_skipn in Hj.
    apply before_R; auto.
    + apply Ps. rewrite <- E. apply in_or_app. now right.
    + apply (Hhigh (k + j)%nat); auto. lia.
  - intros a b Ha [<-|Hb]; [|now apply H3].
    destruct (In_nth_error _ _ Ha) as [j Hj].
    assert (j < k)%nat as Hjk.
    { assert (j < length (firstn k s))%nat as Hl by (apply nth_error_Some; congruence).
      rewrite length_firstn in Hl. lia. }
    rewrite nth_error_firstn in Hj.
    destruct (Nat.ltb_spec j k); [|lia].
    now apply (Hlow j).
Qed.

Lemma binaryInsertionSort_sorted (rest s : list A) :
  Forall P rest -> Forall P s -> StronglySorted R s ->
  StronglySorted R (V8.binaryInsertionSort comparefn s rest).
Proof.
  unfold V8.binaryInsertionSort.
  revert s. induction rest as [|x rest IH]; intros s Pr Ps Hs; simpl; [assumption|].
  apply Forall_cons_iff in Pr. destruct Pr as [Px Pr].
  apply IH; [assumption | | now apply insert_sorted].
  eapply Permutation_Forall; [apply insert_permutation|]. now constructor.
Qed.

Lemma sort_sorted (l : list A) :
  Forall P l -> StronglySorted R (V8.sort comparefn l).
Proof.
  intros Pl. unfold V8.sort.
  destruct (countAndMakeRun_sorted l Pl) as (Hs & P1 & P2).
  destruct (V8.countAndMakeRun comparefn l) as [run rest]. simpl in *.
  now apply binaryInsertionSort_sorted.
Qed.

End SortSorted.

(** ** Dates *)

Module DateFacts.

Import JsDate.
Local Open Scope Z_scope.

Ltac calc :=
  repeat match goal with
    | |- context [daysBeforeMonth ?b ?m] =>
        let v := eval vm_compute in (daysBeforeMonth b m) in
        change (daysBeforeMonth b m) with v
    | |- context [daysInMonth ?y ?m] => unfold daysInMonth
    | H : context [daysInMonth ?y ?m] |- _ => unfold daysInMonth in H
    | |- context [Z.eqb ?a ?b] =>
        let v := eval vm_compute in (Z.eqb a b) in change (Z.eqb a b) with v
    | H : context [Z.eqb ?a ?b] |- _ =>
        let v := eval vm_compute in (Z.eqb a b) in change (Z.eqb a b) with v in H
    end;
  cbn [orb andb negb] in *.

Lemma DayFromYear_succ (y : Z) :
  DayFromYear (y + 1) = DayFromYear y + (if InLeapYear y then 366 else 365).
Proof.
  unfold DayFromYear, InLeapYear.
  destruct (Z.eqb_spec (y mod 4) 0), (Z.eqb_spec (y mod 100) 0),
    (Z.eqb_spec (y mod 400) 0); cbn [negb andb orb];
    Z.div_mod_to_equations; lia.
Qed.

Lemma DayFromYear_le (y1 y2 : Z) : y1 <= y2 -> DayFromYear y1 <= DayFromYear y2.
Proof.
  intros H. unfold DayFromYear. Z.div_mod_to_equations. lia.
Qed.

Lemma MakeDay_real (y m d : Z) :
  1 <= m <= 12 ->
  MakeDay y (m - 1) d = DayFromYear y + daysBeforeMonth (InLeapYear y) (m - 1) + d - 1.
Proof.
  intros H. unfold MakeDay.
  replace ((m - 1) / 12) with 0 by (symmetry; apply Z.div_small; lia).
  rewrite Z.mod_small by lia. now rewrite Z.add_0_r.
Qed.

(** Within a year the days before a month grow by the lengths of the months. *)
Lemma daysBeforeMonth_next (y m : Z) :
  1 <= m < 12 ->
  daysBeforeMonth (InLeapYear y) m
  = daysBeforeMonth (InLeapYear y) (m - 1) + daysInMonth y m.
Proof.
  intros H.
  assert (m = 1 \/ m = 2 \/ m = 3 \/ m = 4 \/ m = 5 \/ m = 6 \/ m = 7 \/ m = 8
          \/ m = 9 \/ m = 10 \/ m = 11) as C by lia.
  unfold daysInMonth.
  destruct (InLeapYear y);
    repeat (destruct C as [->|C]; [reflexivity|]); subst; reflexivity.
Qed.

Lemma daysBeforeMonth_mono (y m1 m2 : Z) :
  1 <= m1 -> m1 < m2 -> m2 <= 12 ->
  daysBeforeMonth (InLeapYear y) (m1 - 1) + daysInMonth y m1
  <= daysBeforeMonth (InLeapYear y) (m2 - 1).
Proof.
  intros H1 H2 H3.
  assert (forall k, 0 <= k -> m1 + 1 + k <= 12 ->
            daysBeforeMonth (InLeapYear y) (m1 - 1) + daysInMonth y m1
            <= daysBeforeMonth (InLeapYear y) (m1 + 1 + k - 1)) as G.
  { intros k Hk. pattern k. apply natlike_ind; [| |assumption].
    - intros _. replace (m1 + 1 + 0 - 1) with m1 by lia.
      rewrite (daysBeforeMonth_next y m1) by lia. lia.
    - intros x Hx IH Hle. specialize (IH ltac:(lia)).
      replace (m1 + 1 + Z.succ x - 1) with (m1 + 1 + x) by lia.
      rewrite (daysBeforeMonth_next y (m1 + 1 + x)) by lia.
      assert (0 < daysInMonth y (m1 + 1 + x)).
      { unfold daysInMonth. repeat destruct (_ =? _); try destruct (InLeapYear y);
          cbn [orb]; lia. }
      lia. }
  specialize (G (m2 - m1 - 1) ltac:(lia) ltac:(lia)).
  now replace (m1 + 1 + (m2 - m1 - 1) - 1) with (m2 - 1) in G by lia.
Qed.

Lemma dayOfYear_bound (y m d : Z) :
  1 <= m <= 12 -> 1 <= d <= daysInMonth y m ->
  0 <= daysBeforeMonth (InLeapYear y) (m - 1) + d - 1
    < (if InLeapYear y then 366 else 365).
Proof.
  intros Hm Hd. unfold daysInMonth in Hd.
  assert (m = 1 \/ m = 2 \/ m = 3 \/ m = 4 \/ m = 5 \/ m = 6 \/ m = 7 \/ m = 8
          \/ m = 9 \/ m = 10 \/ m = 11 \/ m = 12) as C by lia.
  destruct (InLeapYear y);
    repeat (destruct C as [->|C]; [calc; lia|]); subst; calc; lia.
Qed.

(** The day number grows strictly with the calendar date. *)
Lemma MakeDay_lt (y1 m1 d1 y2 m2 d2 : Z) :
  1 <= m1 <= 12 -> 1 <= d1 <= daysInMonth y1 m1 ->
  1 <= m2 <= 12 -> 1 <= d2 <= daysInMonth y2 m2 ->
  (y1 < y2 \/ (y1 = y2 /\ (m1 < m2 \/ (m1 = m2 /\ d1 < d2)))) ->
  MakeDay y1 (m1 - 1) d1 < MakeDay y2 (m2 - 1) d2.
Proof.
  intros Hm1 Hd1 Hm2 Hd2 H.
  rewrite !MakeDay_real by assumption.
  pose proof (dayOfYear_bound y1 m1 d1 Hm1 Hd1) as B1.
  pose proof (dayOfYear_bound y2 m2 d2 Hm2 Hd2) as B2.
  destruct H as [H|[-> [H|[-> H]]]].
  - pose proof (DayFromYear_succ y1) as E.
    pose proof (DayFromYear_le (y1 + 1) y2 ltac:(lia)). lia.
  - pose proof (daysBeforeMonth_mono y2 m1 m2 ltac:(lia) H ltac:(lia)). lia.
  - lia.
Qed.

End DateFacts.

(** ** The date pattern *)

Lemma dateShape_iff (s rest : string) (a b c d e f : ascii) :
  dateShape s = Some (a, b, c, d, e, f, rest)
  <-> isDateToken a b c d e f /\ s = dateToken a b c d e f ++ rest.
Proof.
  unfold dateShape, isDateToken, dateToken. split.
  - do 8 (destruct s as [|? s]; [discriminate|]).
    destruct (_ && _ && _) eqn:E; [|discriminate].
    intros H. injection H as <- <- <- <- <- <- <-.
    rewrite !andb_true_iff in E. destruct E as [[E1 E2] E3].
    apply Ascii.eqb_eq in E1, E2. subst. split; [assumption | reflexivity].
  - intros [H ->]. cbn [append]. rewrite !Ascii.eqb_refl, H. reflexivity.
Qed.

Lemma dateShape_none (s : string) :
  dateShape s = None <->
  (forall a b c d e f rest, isDateToken a b c d e f -> s <> dateToken a b c d e f ++ rest).
Proof.
  split.
  - intros H a b c d e f rest Hd ->.
    assert (dateShape (dateToken a b c d e f ++ rest) = Some (a, b, c, d, e, f, rest)) as E
      by (apply dateShape_iff; auto).
    congruence.
  - intros H. destruct (dateShape s) as [[[[[[[a b] c] d] e] f] rest]|] eqn:E; [|reflexivity].
    apply dateShape_iff in E. destruct E as [Hd ->]. now destruct (H a b c d e f rest).
Qed.

(** ** The order of the fallback path *)

Lemma digit_range (c : ascii) : Js.isDigit c = true -> (0 <= JsDate.digit c <= 9)%Z.
Proof.
  unfold Js.isDigit, JsDate.digit. intros H.
  apply andb_true_iff in H. destruct H as [H1 H2].
  apply Nat.leb_le in H1, H2. lia.
Qed.

Lemma components_range (s : string) (a b c : Z) :
  JsDate.components s = Some (a, b, c) ->
  (0 <= a <= 99 /\ 0 <= b <= 99 /\ 0 <= c <= 99)%Z.
Proof.
  unfold JsDate.components.
  destruct (dateShape s) as [[[[[[[d1 d2] d3] d4] d5] d6] rest]|] eqn:E; [|discriminate].
  destruct rest; [|discriminate].
  apply dateShape_iff in E. destruct E as [Hd _].
  unfold isDateToken in Hd. cbn [forallb] in Hd. rewrite !andb_true_iff in Hd.
  destruct Hd as (H1 & H2 & H3 & H4 & H5 & H6 & _).
  apply digit_range in H1, H2, H3, H4, H5, H6.
  intros H.
  assert (a = 10 * JsDate.digit d1 + JsDate.digit d2)%Z by congruence.
  assert (b = 10 * JsDate.digit d3 + JsDate.digit d4)%Z by congruence.
  assert (c = 10 * JsDate.digit d5 + JsDate.digit d6)%Z by congruence.
  lia.
Qed.

Lemma realDate_day (s : string) :
  realDate s = true ->
  exists y m d,
    calendarOf s = (y, m, d)
    /\ JsDate.day s = Some (JsDate.MakeDay y (m - 1) d)
    /\ (1 <= m <= 12)%Z /\ (1 <= d <= JsDate.daysInMonth y m)%Z.
Proof.
  unfold realDate, calendarOf, JsDate.day, JsDate.calendar.
  destruct (JsDate.components s) as [[[m d] y]|] eqn:E; [|discriminate].
  apply components_range in E. destruct E as (Hm & Hd & Hy).
  intros H. rewrite !andb_true_iff in H. destruct H as [[[H1 H2] H3] H4].
  apply Z.leb_le in H1, H2, H3, H4.
  set (year := if (y <=? 49)%Z then (y + 2000)%Z else (y + 1900)%Z) in *.
  exists year, m, d.
  assert (d <= 31)%Z as Hd31.
  { revert H4. unfold JsDate.daysInMonth.
    repeat destruct (_ =? _)%Z; try destruct (JsDate.InLeapYear year); cbn [orb]; lia. }
  repeat split; try lia.
  unfold JsDate.compose, JsDate.IsDay, JsDate.IsMonth.
  replace ((1 <=? m)%Z && (m <=? 31)%Z) with true
    by (symmetry; apply andb_true_iff; split; apply Z.leb_le; lia).
  cbn [negb].
  replace ((0 <=? y)%Z && (y <=? 49)%Z) with (y <=? 49)%Z
    by (replace (0 <=? y)%Z with true by (symmetry; apply Z.leb_le; lia); reflexivity).
  fold year.
  assert ((if (y <=? 49)%Z then (y + 2000)%Z
           else if (50 <=? y)%Z && (y <=? 99)%Z then (y + 1900)%Z else y) = year) as ->.
  { unfold year. destruct (Z.leb_spec y 49); [reflexivity|].
    replace ((50 <=? y)%Z && (y <=? 99)%Z) with true; [reflexivity|].
    symmetry; apply andb_true_iff; split; apply Z.leb_le; lia. }
  replace ((1 <=? m)%Z && (m <=? 12)%Z) with true
    by (symmetry; apply andb_true_iff; split; apply Z.leb_le; lia).
  replace ((1 <=? d)%Z && (d <=? 31)%Z) with true
    by (symmetry; apply andb_true_iff; split; apply Z.leb_le; lia).
  reflexivity.
Qed.

Lemma byDay_total (a b : NewsItem) : byDay a b \/ byDay b a.
Proof.
  unfold byDay.
  destruct (string_dec (date a) EmptyString) as [Ha|Ha]; [now right; left|].
  destruct (string_dec (date b) EmptyString) as [Hb|Hb]; [now left; left|].
  destruct (Z_le_gt_dec (dayNumber b) (dayNumber a)).
  - left. right. auto.
  - right. right. repeat split; auto. lia.
Qed.

Lemma byDay_trans (a b c : NewsItem) : byDay a b -> byDay b c -> byDay a c.
Proof.
  unfold byDay. intros [Hb|(Ha & Hb & Hab)] [Hc|(Hb' & Hc & Hbc)]; auto; try contradiction.
  right. repeat split; auto. lia.
Qed.

Section NewsOrder.

Variable LocalTZA : Z -> Z.
Hypothesis tz : midnightsInOrder LocalTZA.

Lemma midnights_le (d1 d2 : Z) :
  (d1 <= d2)%Z <->
  (0 <= (d2 * JsDate.msPerDay - LocalTZA (d2 * JsDate.msPerDay))
        - (d1 * JsDate.msPerDay - LocalTZA (d1 * JsDate.msPerDay)))%Z.
Proof.
  split; intros H.
  - destruct (Z.eq_dec d1 d2) as [->|Hne]; [lia|].
    pose proof (tz d1 d2 ltac:(lia)). lia.
  - destruct (Z_le_gt_dec d1 d2) as [|Hgt]; [assumption|].
    pose proof (tz d2 d1 ltac:(lia)). lia.
Qed.

Lemma wellDated_value (n : NewsItem) :
  wellDated n -> date n <> EmptyString ->
  Date_valueOf LocalTZA (date n)
  = Some (dayNumber n * JsDate.msPerDay - LocalTZA (dayNumber n * JsDate.msPerDay))%Z.
Proof.
  intros [H|H] Hd; [contradiction|].
  destruct (realDate_day _ H) as (y & m & d & _ & E & _).
  unfold Date_valueOf, dayNumber. now rewrite E.
Qed.

Lemma compareNews_byDay (x y : NewsItem) :
  wellDated x -> wellDated y ->
  (byDay y x <-> (0 <= V8.callCompare (compareNews LocalTZA) x y)%Z).
Proof.
  intros Hx Hy. unfold V8.callCompare, compareNews, byDay.
  destruct (date x) as [|cx sx] eqn:Ex; cbn [Js.isEmpty].
  { split; [lia | now left]. }
  destruct (date y) as [|cy sy] eqn:Ey; cbn [Js.isEmpty].
  { split; [|lia]. intros [H|(H & _)]; [discriminate | contradiction]. }
  rewrite <- Ex, <- Ey.
  rewrite (wellDated_value x Hx), (wellDated_value y Hy) by congruence.
  rewrite <- midnights_le. split.
  - intros [H|(_ & _ & H)]; [congruence | assumption].
  - intros H. right. repeat split; (congruence || assumption).
Qed.

Lemma sort_byDay (l : list NewsItem) :
  Forall wellDated l -> StronglySorted byDay (V8.sort (compareNews LocalTZA) l).
Proof.
  apply sort_sorted.
  - apply byDay_total.
  - apply byDay_trans.
  - apply compareNews_byDay.
Qed.

End NewsOrder.

Lemma byDay_newestFirst (a b : NewsItem) :
  wellDated a -> wellDated b -> byDay a b -> newestFirst a b.
Proof.
  unfold byDay, newestFirst. intros Ha Hb [H|(Hda & Hdb & H)]; [now left|].
  right. repeat split; auto.
  destruct Ha as [Ha|Ha]; [contradiction|]. destruct Hb as [Hb|Hb]; [contradiction|].
  destruct (realDate_day _ Ha) as (ya & ma & da & Ca & Ea & Hma & Hdya).
  destruct (realDate_day _ Hb) as (yb & mb & db & Cb & Eb & Hmb & Hdyb).
  unfold dayNumber in H. rewrite Ea, Eb in H. rewrite Ca, Cb. unfold notAfter.
  destruct (Z_lt_ge_dec yb ya) as [|Hy]; [now left|].
  destruct (Z.eq_dec yb ya) as [->|Hne].
  - right. split; [reflexivity|].
    destruct (Z_lt_ge_dec mb ma) as [|Hm]; [now left|].
    destruct (Z.eq_dec mb ma) as [->|Hne].
    + right. split; [reflexivity|].
      unfold JsDate.MakeDay in H. lia.
    + pose proof (DateFacts.MakeDay_lt ya ma da ya mb db Hma Hdya Hmb Hdyb) as L.
      lia.
  - pose proof (DateFacts.MakeDay_lt ya ma da yb mb db Hma Hdya Hmb Hdyb) as L.
    lia.
Qed.

(** ** Iteration *)

Lemma each_invariant {A St : Type} (f : nat -> A -> St -> St) (Inv : St -> Prop) :
  (forall i x s, Inv s -> Inv (f i x s)) ->
  forall l i s, Inv s -> Inv (each f i l s).
Proof.
  intros Hf l. induction l as [|x l IH]; intros i s Hs; simpl; auto.
Qed.

Lemma each_newsItem (limit : nat) (nodes : list cursor) :
  forall index newsItems,
    each (newsItem limit) index nodes newsItems
    = (newsItems ++ retained (firstn (limit - index) nodes))%list.
Proof.
  induction nodes as [|e nodes IH]; intros index newsItems; simpl.
  - now rewrite firstn_nil, app_nil_r.
  - rewrite IH. unfold newsItem.
    destruct (Nat.leb_spec limit index) as [Hle|Hlt].
    + replace (limit - index) with 0 by lia.
      replace (limit - S index) with 0 by lia. reflexivity.
    + replace (limit - index) with (S (limit - S index)) by lia.
      cbn [firstn retained flat_map]. fold (retained (firstn (limit - S index) nodes)).
      destruct (buildItem e); unfold push; now rewrite <- ?app_assoc.
Qed.

Lemma retained_length (nodes : list cursor) : length (retained nodes) <= length nodes.
Proof.
  induction nodes as [|e nodes IH]; simpl; [lia|].
  rewrite length_app. destruct (buildItem e); simpl; lia.
Qed.

(** ** The selector cascade *)

Lemma selectSelector_first (doc : document) (pre post : list string) (S0 : string) :
  Forall (noMatch doc) pre -> 0 < length (Cheerio.select doc S0) ->
  forall s0 n0,
    selectSelector doc (pre ++ S0 :: post) s0 n0 = (S0, length (Cheerio.select doc S0)).
Proof.
  intros Hpre HS. induction Hpre as [|c pre Hc Hpre IH]; intros s0 n0; simpl.
  - destruct (Nat.ltb_spec 0 (length (Cheerio.select doc S0))); [reflexivity | lia].
  - unfold noMatch in Hc. rewrite Hc. simpl. apply IH.
Qed.

Lemma selectSelector_none (doc : document) (candidates : list string) :
  Forall (noMatch doc) candidates ->
  forall s0 n0, fst (selectSelector doc candidates s0 n0) = s0.
Proof.
  induction 1 as [|c l Hc Hl IH]; intros s0 n0; simpl; [reflexivity|].
  unfold noMatch in Hc. rewrite Hc. simpl. apply IH.
Qed.

Lemma selectSelector_some (doc : document) (candidates : list string) :
  forall s0 n0,
    Forall (noMatch doc) candidates
    \/ In (fst (selectSelector doc candidates s0 n0)) candidates.
Proof.
  induction candidates as [|c l IH]; intros s0 n0; simpl; [left; constructor|].
  destruct (Nat.ltb_spec 0 (length (Cheerio.select doc c))) as [Hlt|Hge].
  - right. now left.
  - destruct (IH s0 (length (Cheerio.select doc c))) as [H|H].
    + left. constructor; [unfold noMatch; lia | assumption].
    + right. now right.
Qed.


Lemma firstn_subset {A : Type} (n : nat) (l : list A) (x : A) :
  In x (firstn n l) -> In x l.
Proof.
  intros H. rewrite <- (firstn_skipn n l). apply in_or_app. now left.
Qed.

(** ** The claims on the two functions and their paths *)

Section Claims.

Variable toLowerCase : string -> string.
Variable LocalTZA : Z -> Z.
Variable axios_get : string -> completion string.
Variable load : string -> completion document.

(** C5. The cascade settles on the first candidate, in the order of
    [potentialSelectors], that matches at least one element of the document,
    whatever the candidates after it match, and the selector path then runs
    on it; it settles on none exactly when no candidate matches, and the
    fallback path runs then. *)
Theorem selector_cascade_first_match (doc : document) (limit : nat) :
  (forall pre S0 post,
      potentialSelectors = (pre ++ S0 :: post)%list ->
      Forall (noMatch doc) pre ->
      0 < length (Cheerio.select doc S0) ->
      fst (selectSelector doc potentialSelectors EmptyString 0) = S0
      /\ parseListing toLowerCase LocalTZA doc limit = structured doc S0 limit)
  /\ (Forall (noMatch doc) potentialSelectors
      <-> fst (selectSelector doc potentialSelectors EmptyString 0) = EmptyString)
  /\ (Forall (noMatch doc) potentialSelectors ->
      parseListing toLowerCase LocalTZA doc limit
      = fallback LocalTZA doc
          (each (collectImage toLowerCase) 0 (Cheerio.select doc "img") []) limit).
Proof.
  split; [|split].
  - intros pre S0 post E Hpre HS.
    assert (In S0 potentialSelectors) as Hin by (rewrite E; apply in_elt).
    unfold parseListing. rewrite E.
    rewrite (selectSelector_first doc pre post S0 Hpre HS). split; [reflexivity|].
    destruct S0; [|reflexivity].
    exfalso. unfold potentialSelectors in Hin. simpl in Hin.
    repeat (destruct Hin as [Hin|Hin]; [discriminate|]). exact Hin.
  - split.
    + intros H. now apply selectSelector_none.
    + intros H. destruct (selectSelector_some doc potentialSelectors EmptyString 0) as [|Hin];
        [assumption|].
      rewrite H in Hin. exfalso. unfold potentialSelectors in Hin. simpl in Hin.
      repeat (destruct Hin as [Hin|Hin]; [discriminate|]). exact Hin.
  - intros H. unfold parseListing.
    pose proof (selectSelector_none doc potentialSelectors H EmptyString 0) as E.
    destruct (selectSelector doc potentialSelectors EmptyString 0) as [sel n].
    simpl in E. subst sel. reflexivity.
Qed.

(** C7. [fetchArticleDetails] always answers with details: the default ones
    when the request fails, when the page cannot be loaded, and when the page
    has none of the elements it looks for. *)
Theorem fetchArticleDetails_never_raises (url : string) :
  (exists details, fetchArticleDetails axios_get load url = Normal details)
  /\ (forall e, axios_get url = Throw e ->
        fetchArticleDetails axios_get load url = Normal defaultDetails)
  /\ (forall html e, axios_get url = Normal html -> load html = Throw e ->
        fetchArticleDetails axios_get load url = Normal defaultDetails)
  /\ (forall html doc, axios_get url = Normal html -> load html = Normal doc ->
        Forall (noMatch doc) recognizedSelectors ->
        fetchArticleDetails axios_get load url = Normal defaultDetails).
Proof.
  unfold fetchArticleDetails. repeat split.
  - destruct (axios_get url) as [html|e]; simpl; [|eauto].
    destruct (load html) as [doc|e]; simpl; eauto.
  - intros e ->. reflexivity.
  - intros html e -> H. simpl. rewrite H. reflexivity.
  - intros html doc -> H Hno. simpl. rewrite H. simpl.
    unfold recognizedSelectors in Hno.
    repeat match goal with
           | H : Forall _ (_ :: _) |- _ =>
               apply Forall_cons_iff in H; destruct H as [?H H]
           end.
    repeat match goal with
           | H : noMatch _ _ |- _ =>
               unfold noMatch in H; apply length_zero_iff_nil in H; rewrite H
           end.
    reflexivity.
Qed.

(** C8. [fetchNintendoNews] always answers with a list: the empty one when
    the listing page cannot be fetched or loaded. *)
Theorem fetchNintendoNews_never_raises (limit : nat) :
  (exists items,
      fetchNintendoNews toLowerCase LocalTZA axios_get load limit = Normal items)
  /\ (forall e, axios_get NINTENDO_NEWS_URL = Throw e ->
        fetchNintendoNews toLowerCase LocalTZA axios_get load limit = Normal [])
  /\ (forall html e, axios_get NINTENDO_NEWS_URL = Normal html -> load html = Throw e ->
        fetchNintendoNews toLowerCase LocalTZA axios_get load limit = Normal [])
  /\ (forall html doc, axios_get NINTENDO_NEWS_URL = Normal html -> load html = Normal doc ->
        fetchNintendoNews toLowerCase LocalTZA axios_get load limit
        = Normal (parseListing toLowerCase LocalTZA doc limit)).
Proof.
  unfold fetchNintendoNews. repeat split.
  - destruct (axios_get NINTENDO_NEWS_URL) as [html|e]; simpl; [|eauto].
    destruct (load html) as [doc|e]; simpl; eauto.
  - intros e ->. reflexivity.
  - intros html e -> H. simpl. rewrite H. reflexivity.
  - intros html doc -> H. simpl. rewrite H. reflexivity.
Qed.

Lemma newsLinks_placeholder (allImages : list image) (anchors : list cursor) :
  Forall (fun item => description item = placeholder)
         (each (newsLink allImages) 0 anchors []).
Proof.
  apply each_invariant; [|constructor].
  intros i el s Hs. unfold newsLink.
  destruct (Cheerio.attr [el] "href"); [|assumption].
  destruct (_ && _ && _); [|assumption].
  unfold push. apply Forall_app. split; [assumption|].
  constructor; [reflexivity | constructor].
Qed.

(** C10. Every item of the fallback path has the placeholder as its
    description. *)
Theorem fallback_description_placeholder
  (doc : document) (allImages : list image) (limit : nat) :
  Forall (fun item => description item = placeholder)
         (fallback LocalTZA doc allImages limit).
Proof.
  unfold fallback, V8.slice.
  rewrite Forall_forall. intros item Hin.
  apply firstn_subset in Hin.
  apply (Permutation_in _ (Permutation_sym (sort_permutation _ _))) in Hin.
  pose proof (newsLinks_placeholder allImages (Cheerio.select doc "a")) as H.
  rewrite Forall_forall in H. now apply H.
Qed.

(** C1, as the code has it. The selector path looks at the first [limit]
    nodes only and keeps, of those, the ones whose derived title or derived
    description is not empty: it returns at most [limit] items, and a dropped
    node among the first [limit] uses up its place. *)
Theorem structured_within_limit (doc : document) (selector : string) (limit : nat) :
  structured doc selector limit
  = retained (firstn limit (Cheerio.select doc selector))
  /\ length (structured doc selector limit) <= limit
  /\ (forall element,
        buildItem element = None
        <-> derivedTitle element = EmptyString
            /\ derivedDescription element = EmptyString)
  /\ (fst (selectSelector doc potentialSelectors EmptyString 0) = selector ->
      selector <> EmptyString ->
      parseListing toLowerCase LocalTZA doc limit
      = retained (firstn limit (Cheerio.select doc selector))).
Proof.
  assert (structured doc selector limit
          = retained (firstn limit (Cheerio.select doc selector))) as E.
  { unfold structured. rewrite each_newsItem. now rewrite Nat.sub_0_r. }
  split; [exact E|]. split; [|split].
  - rewrite E. etransitivity; [apply retained_length|].
    rewrite length_firstn. lia.
  - intros element. unfold buildItem.
    destruct (derivedTitle element), (derivedDescription element); simpl;
      split; try discriminate; try (intros [? ?]; discriminate); auto.
  - intros Hsel Hne. unfold parseListing.
    destruct (selectSelector doc potentialSelectors EmptyString 0) as [sel n].
    simpl in Hsel. subst sel.
    destruct selector; [contradiction|]. exact E.
Qed.

End Claims.

(** C1, as the specification states it, fails: with a limit of one, a first
    node without title and description leaves the result empty although the
    second node would be retained. *)
Lemma structured_dropped_node_counts :
  fetchNintendoNews lower utc online (parsed listingWithEmptyNode) 1 = Normal []
  /\ structured listingWithEmptyNode "article" 1 = []
  /\ extractFrom_spec (Cheerio.select listingWithEmptyNode "article") 1 <> [].
Proof.
  split; [reflexivity | split; [reflexivity | discriminate]].
Qed.

Lemma Permutation_three {A : Type} (a b c : A) (l : list A) :
  Permutation [a; b; c] l ->
  l = [a; b; c] \/ l = [a; c; b] \/ l = [b; a; c]
  \/ l = [b; c; a] \/ l = [c; a; b] \/ l = [c; b; a].
Proof.
  intros H.
  assert (In a l) as Ha by (eapply Permutation_in; [exact H | simpl; auto]).
  apply in_split in Ha. destruct Ha as (l1 & l2 & ->).
  apply Permutation_cons_app_inv in H.
  apply Permutation_length_2_inv in H.
  destruct l1 as [|x [|y [|z l1]]]; simpl in H; destruct H as [H|H];
    try discriminate; try (injection H as -> ->); subst; simpl; auto 10;
    try (injection H as -> -> ->); auto 10;
    try (destruct l2; discriminate).
  all: try (injection H; intros; subst; simpl; auto 10).
  all: try (destruct l1; discriminate).
Qed.

Section Newest.

Variable LocalTZA : Z -> Z.
Hypothesis tz : midnightsInOrder LocalTZA.

Lemma sort_newestFirst (l : list NewsItem) :
  Forall wellDated l ->
  StronglySorted newestFirst (V8.sort (compareNews LocalTZA) l).
Proof.
  intros Hl.
  apply (StronglySorted_weaken byDay wellDated newestFirst).
  - apply byDay_newestFirst.
  - eapply Permutation_Forall; [apply sort_permutation | exact Hl].
  - now apply sort_byDay.
Qed.

Lemma wellDated_sample (d : string) :
  d = EmptyString \/ realDate d = true -> wellDated (sampleItem d).
Proof. intros H. exact H. Qed.

Lemma newestFirst_sample (d1 d2 : string) :
  newestFirst (sampleItem d1) (sampleItem d2) ->
  d2 = EmptyString
  \/ (d1 <> EmptyString /\ notAfter (calendarOf d2) (calendarOf d1)).
Proof.
  intros [H|(H1 & _ & H3)]; [now left | right; auto].
Qed.

Ltac refute_sample H :=
  apply newestFirst_sample in H;
  destruct H as [H|[? H]];
  [ discriminate
  | first [ congruence | cbv - [Z.lt Z.le] in H; lia ] ].

Ltac refute_order :=
  repeat match goal with
         | H : StronglySorted _ (_ :: _) |- _ =>
             apply StronglySorted_inv in H; destruct H as [H ?H]
         | H : Forall _ (_ :: _) |- _ =>
             apply Forall_cons_iff in H; destruct H as [?H H]
         end;
  match goal with
  | H : newestFirst (sampleItem _) (sampleItem _) |- _ => solve [refute_sample H]
  end.

Lemma sort_three_samples (l : list NewsItem) :
  Permutation [sampleItem "03/01/24"; sampleItem "02/15/24"; sampleItem EmptyString] l ->
  V8.sort (compareNews LocalTZA) l
  = [sampleItem "03/01/24"; sampleItem "02/15/24"; sampleItem EmptyString].
Proof.
  intros Hl.
  assert (Forall wellDated l) as Hw.
  { eapply Permutation_Forall; [exact Hl|].
    repeat constructor; apply wellDated_sample; auto. }
  pose proof (sort_newestFirst l Hw) as Hs.
  assert (Permutation [sampleItem "03/01/24"; sampleItem "02/15/24"; sampleItem EmptyString]
                      (V8.sort (compareNews LocalTZA) l)) as Hp
      by (etransitivity; [exact Hl | apply sort_permutation]).
  clear Hl Hw. revert Hs Hp.
  generalize (V8.sort (compareNews LocalTZA) l). intros s Hs Hp.
  apply Permutation_three in Hp.
  destruct Hp as [E|[E|[E|[E|[E|E]]]]]; subst s; [reflexivity| | | | |];
    exfalso; refute_order.
Qed.

Lemma sort_two_samples :
  V8.sort (compareNews LocalTZA) [sampleItem "12/31/23"; sampleItem "01/01/24"]
  = [sampleItem "01/01/24"; sampleItem "12/31/23"].
Proof.
  assert (Forall wellDated [sampleItem "12/31/23"; sampleItem "01/01/24"]) as Hw
      by (repeat constructor; apply wellDated_sample; auto).
  pose proof (sort_newestFirst _ Hw) as Hs.
  pose proof (sort_permutation (compareNews LocalTZA)
                [sampleItem "12/31/23"; sampleItem "01/01/24"]) as Hp.
  clear Hw. revert Hs Hp.
  generalize (V8.sort (compareNews LocalTZA)
                [sampleItem "12/31/23"; sampleItem "01/01/24"]). intros s Hs Hp.
  apply Permutation_length_2_inv in Hp.
  destruct Hp as [E|E]; subst s; [|reflexivity].
  exfalso. refute_order.
Qed.

End Newest.

(** ** Strings *)

Module StringFacts.

Import Js.

Lemma length_append (s t : string) :
  String.length (s ++ t) = String.length s + String.length t.
Proof. induction s as [|c s IH]; simpl; [reflexivity | now rewrite IH]. Qed.

Lemma length_take (n : nat) (s : string) :
  String.length (take n s) = Nat.min n (String.length s).
Proof.
  revert s. induction n as [|n IH]; intros [|c s]; simpl; auto.
Qed.

Lemma take_append (s t : string) : take (String.length s) (s ++ t) = s.
Proof. induction s as [|c s IH]; simpl; [now destruct t | now rewrite IH]. Qed.

Lemma drop_append (s t : string) : drop (String.length s) (s ++ t) = t.
Proof. induction s as [|c s IH]; simpl; auto. Qed.

Lemma append_assoc (s t u : string) : (s ++ t) ++ u = s ++ (t ++ u).
Proof. induction s as [|c s IH]; simpl; [reflexivity | now rewrite IH]. Qed.

Lemma substring_0 (s : string) (n : nat) : substring s 0 n = take n s.
Proof. unfold substring. now rewrite Nat.max_0_l, Nat.min_0_l, Nat.sub_0_r. Qed.

Lemma startsWith_empty (s : string) : startsWith s EmptyString = true.
Proof. now destruct s. Qed.

Lemma startsWith_append (p t : string) : startsWith (p ++ t) p = true.
Proof.
  induction p as [|c p IH]; simpl; [now destruct t|].
  now rewrite Ascii.eqb_refl.
Qed.

Lemma repeatChar_length (c : ascii) (n : nat) : String.length (repeatChar c n) = n.
Proof. induction n as [|n IH]; simpl; [reflexivity | now rewrite IH]. Qed.

(** *** [indexOf] *)

Lemma indexOfFrom_shift (s p : string) (i : Z) :
  (indexOfFrom i s p = i + indexOfFrom 0 s p /\ 0 <= indexOfFrom 0 s p)%Z
  \/ (indexOfFrom i s p = -1 /\ indexOfFrom 0 s p = -1)%Z.
Proof.
  revert i. induction s as [|c s IH]; intros i; cbn [indexOfFrom];
    change (0 + 1)%Z with 1%Z.
  - destruct (startsWith EmptyString p); [left; lia | right; auto].
  - destruct (startsWith (String c s) p); [left; lia|].
    destruct (IH (i + 1)%Z) as [[E1 H1]|[E1 H1]], (IH 1%Z) as [[E2 H2]|[E2 H2]]; lia.
Qed.

Lemma indexOf_char_first (c : ascii) (pre post : string) :
  includes pre (String c EmptyString) = false ->
  indexOf (pre ++ String c post) (String c EmptyString)
  = Z.of_nat (String.length pre).
Proof.
  unfold indexOf. induction pre as [|a pre IH]; intros H.
  - cbn [append String.length indexOfFrom startsWith].
    now rewrite Ascii.eqb_refl, startsWith_empty.
  - cbn [includes] in H. apply orb_false_iff in H. destruct H as [H1 H2].
    cbn [append indexOfFrom]. 
    assert (startsWith (String a (pre ++ String c post)) (String c EmptyString) = false) as ->.
    { cbn [startsWith] in *. rewrite startsWith_empty in *.
      now destruct (Ascii.eqb a c). }
    specialize (IH H2). change (0 + 1)%Z with 1%Z.
    destruct (indexOfFrom_shift (pre ++ String c post) (String c EmptyString) 1)
      as [[E _]|[_ E]]; cbn [String.length]; lia.
Qed.

Lemma indexOf_char_absent (c : ascii) (s : string) :
  includes s (String c EmptyString) = false ->
  indexOf s (String c EmptyString) = (-1)%Z.
Proof.
  unfold indexOf. induction s as [|a s IH]; intros H; [reflexivity|].
  cbn [includes] in H. apply orb_false_iff in H. destruct H as [H1 H2].
  cbn [indexOfFrom]. rewrite H1. specialize (IH H2). change (0 + 1)%Z with 1%Z.
  destruct (indexOfFrom_shift s (String c EmptyString) 1) as [[E H]|[E _]]; lia.
Qed.

(** *** [replace] *)

Lemma replace_eq (s pat rep : string) :
  replace s pat rep
  = if startsWith s pat then rep ++ drop (String.length pat) s
    else match s with
         | EmptyString => EmptyString
         | String c s' => String c (replace s' pat rep)
         end.
Proof. now destruct s. Qed.

Lemma replace_first (pre pat post rep : string) :
  indexOf (pre ++ pat ++ post) pat = Z.of_nat (String.length pre) ->
  replace (pre ++ pat ++ post) pat rep = pre ++ rep ++ post.
Proof.
  unfold indexOf. induction pre as [|a pre IH]; intros H.
  - cbn [append]. now rewrite replace_eq, startsWith_append, drop_append.
  - cbn [append String.length] in *.
    rewrite replace_eq. cbn [indexOfFrom] in H.
    destruct (startsWith (String a (pre ++ pat ++ post)) pat); [lia|].
    f_equal. apply IH. change (0 + 1)%Z with 1%Z in H.
    destruct (indexOfFrom_shift (pre ++ pat ++ post) pat 1) as [[E H0]|[E _]]; lia.
Qed.

(** *** [trim] *)

Lemma trimEnd_last (s : string) (c : ascii) :
  isWhiteSpace c = false ->
  trimEnd (s ++ String c EmptyString) = s ++ String c EmptyString.
Proof.
  intros Hc. induction s as [|a s IH]; cbn [append trimEnd].
  - now rewrite Hc.
  - rewrite IH. now destruct s.
Qed.

Lemma trimStart_length (s : string) : String.length (trimStart s) <= String.length s.
Proof.
  induction s as [|c s IH]; simpl; [lia|].
  destruct (isWhiteSpace c); simpl; lia.
Qed.

Lemma trimStart_fixed (c : ascii) (s : string) :
  trimStart (String c s) = String c s -> isWhiteSpace c = false.
Proof.
  simpl. destruct (isWhiteSpace c); [|reflexivity].
  intros H. pose proof (trimStart_length s) as L. rewrite H in L. simpl in L. lia.
Qed.

Lemma trim_sentence (pre post : string) :
  pre <> EmptyString ->
  trimStart (pre ++ String "." post) = pre ++ String "." post ->
  trim (pre ++ String "." EmptyString) = pre ++ String "." EmptyString.
Proof.
  intros Hne H. destruct pre as [|c pre]; [contradiction|].
  cbn [append] in H. apply trimStart_fixed in H.
  unfold trim. cbn [append trimStart]. rewrite H.
  change (String c (pre ++ String "." EmptyString))
    with (String c pre ++ String "." EmptyString).
  now apply trimEnd_last.
Qed.

End StringFacts.

(** ** The title-length guard *)

(** C3, as the code has it. A title of at most 250 characters is left alone.
    A longer one whose first period stands at an index strictly between 10
    and 240 is cut just after that period, and what follows goes, trimmed, in
    front of the description. Any other longer title, with no period or with
    its first period elsewhere, is cut at 250 characters and given an
    ellipsis, 253 characters in all, and the rest goes in front of the
    description. *)
Theorem title_guard_first_period (title description : string) :
  (String.length title <= 250 ->
   truncateTitle title description = (title, description))
  /\ (250 < String.length title ->
      forall pre post,
        title = pre ++ String "." post ->
        Js.includes pre "." = false ->
        10 < String.length pre < 240 ->
        Js.trimStart title = title ->
        truncateTitle title description
        = (pre ++ ".",
           Js.trim post
           ++ (if negb (Js.isEmpty description)
               then Js.newline ++ Js.newline ++ description else EmptyString))
        /\ String.length (fst (truncateTitle title description))
           = String.length pre + 1)
  /\ (250 < String.length title ->
      (Js.includes title "." = false
       \/ exists pre post,
           title = pre ++ String "." post /\ Js.includes pre "." = false
           /\ (String.length pre <= 10 \/ 240 <= String.length pre)) ->
      truncateTitle title description
      = (Js.take 250 title ++ "...",
         Js.drop 250 title
         ++ (if negb (Js.isEmpty description)
             then "..." ++ Js.newline ++ Js.newline ++ description else "..."))
      /\ String.length (fst (truncateTitle title description)) = 253).
Proof.
  split; [|split].
  - intros H. unfold truncateTitle.
    destruct (Nat.ltb_spec 250 (String.length title)); [lia|].
    now rewrite andb_false_r.
  - intros Hlen pre post E Hpre Hrange Htrim.
    assert (truncateTitle title description
            = (pre ++ ".",
               Js.trim post
               ++ (if negb (Js.isEmpty description)
                   then Js.newline ++ Js.newline ++ description else EmptyString))) as R.
    { unfold truncateTitle.
      destruct (Nat.ltb_spec 250 (String.length title)); [|lia].
      assert (Js.isEmpty title = false) as -> by (destruct title; [simpl in *; lia | reflexivity]).
      cbn [negb andb].
      assert (Js.indexOf title "." = Z.of_nat (String.length pre)) as ->
          by (rewrite E; now apply StringFacts.indexOf_char_first).
      destruct (Z.ltb_spec 10 (Z.of_nat (String.length pre))); [|lia].
      destruct (Z.ltb_spec (Z.of_nat (String.length pre)) 240); [|lia].
      cbn [andb].
      replace (Z.to_nat (Z.of_nat (String.length pre) + 1))
        with (String.length (pre ++ ".")) by (rewrite StringFacts.length_append; simpl; lia).
      assert (title = (pre ++ ".") ++ post) as E'
          by (rewrite E, StringFacts.append_assoc; reflexivity).
      rewrite StringFacts.substring_0. unfold Js.substringFrom.
      rewrite E' at 1 2.
      rewrite StringFacts.take_append, StringFacts.drop_append.
      rewrite (StringFacts.trim_sentence pre post); [reflexivity | | congruence].
      intros ->. simpl in Hrange. lia. }
    split; [exact R|]. rewrite R. cbn [fst].
    rewrite StringFacts.length_append. reflexivity.
  - intros Hlen Hno.
    assert (truncateTitle title description
            = (Js.take 250 title ++ "...",
               Js.drop 250 title
               ++ (if negb (Js.isEmpty description)
                   then "..." ++ Js.newline ++ Js.newline ++ description else "..."))) as R.
    { unfold truncateTitle.
      destruct (Nat.ltb_spec 250 (String.length title)); [|lia].
      assert (Js.isEmpty title = false) as -> by (destruct title; [simpl in *; lia | reflexivity]).
      cbn [negb andb].
      assert ((10 <? Js.indexOf title ".")%Z && (Js.indexOf title "." <? 240)%Z = false) as ->.
      { destruct Hno as [Hno|(pre & post & E & Hpre & Hout)].
        - now rewrite (StringFacts.indexOf_char_absent "." title Hno).
        - rewrite E, (StringFacts.indexOf_char_first "." pre post Hpre).
          apply andb_false_iff. destruct Hout; [left | right]; apply Z.ltb_ge; lia. }
      now rewrite StringFacts.substring_0. }
    split; [exact R|]. rewrite R. cbn [fst].
    rewrite StringFacts.length_append, StringFacts.length_take.
    cbn [String.length]. lia.
Qed.

(** C3, as the specification states it, fails: a title of 260 characters
    with periods at 5 and at 120 has a period strictly between 10 and 240,
    and is not cut after it. *)
Lemma title_guard_ignores_later_period :
  String.length titleWithEarlyPeriod = 260
  /\ String.get 120 titleWithEarlyPeriod = Some "."%char
  /\ String.get 5 titleWithEarlyPeriod = Some "."%char
  /\ fst (truncateTitle titleWithEarlyPeriod EmptyString)
     <> Js.substring titleWithEarlyPeriod 0 121
  /\ String.length (fst (truncateTitle titleWithEarlyPeriod EmptyString)) = 253.
Proof.
  repeat split; try reflexivity.
  vm_compute. discriminate.
Qed.

(** ** The fallback path *)

(** C6, as the code has it. For an anchor the fallback path keeps, the raw
    title is the trimmed text without the first occurrence of the marker,
    trimmed again. A raw title that begins with two digits, a slash, two
    digits, a slash and two digits gives that token as the date and the
    trimmed remainder as the title; any other raw title is the title, and
    the date is empty. *)
Theorem fallback_title_and_date
  (allImages : list image) (i : nat) (el : cursor) (newsLinks : list NewsItem)
  (href : string) :
  let text := Js.trim (Cheerio.text [el]) in
  let rawTitle := Js.trim (Js.replace text "Read more" EmptyString) in
  Cheerio.attr [el] "href" = Some href ->
  href <> EmptyString ->
  Js.includes text "Read more" = true ->
  exists item,
    newsLink allImages i el newsLinks = push newsLinks item
    /\ (forall pre post,
          text = pre ++ "Read more" ++ post ->
          Js.indexOf text "Read more" = Z.of_nat (String.length pre) ->
          rawTitle = Js.trim (pre ++ post))
    /\ (forall d1 d2 d3 d4 d5 d6 rest,
          isDateToken d1 d2 d3 d4 d5 d6 ->
          rawTitle = dateToken d1 d2 d3 d4 d5 d6 ++ rest ->
          date item = dateToken d1 d2 d3 d4 d5 d6 /\ title item = Js.trim rest)
    /\ ((forall d1 d2 d3 d4 d5 d6 rest,
            isDateToken d1 d2 d3 d4 d5 d6 ->
            rawTitle <> dateToken d1 d2 d3 d4 d5 d6 ++ rest) ->
        date item = EmptyString /\ title item = rawTitle).
Proof.
  intros text rawTitle Hhref Hne Hmark.
  unfold newsLink. fold text. rewrite Hhref. fold rawTitle.
  assert (Js.isEmpty text = false) as -> by (destruct text; [discriminate | reflexivity]).
  assert (Js.truthy (Some href) = true) as -> by (destruct href; [contradiction | reflexivity]).
  rewrite Hmark. cbn [negb andb].
  eexists. split; [reflexivity|]. cbn [date title]. split; [|split].
  - intros pre post E Hidx. unfold rawTitle. rewrite E in *.
    rewrite (StringFacts.replace_first pre "Read more" post EmptyString Hidx).
    reflexivity.
  - intros d1 d2 d3 d4 d5 d6 rest Hd E.
    assert (dateShape rawTitle = Some (d1, d2, d3, d4, d5, d6, rest)) as S
        by (apply dateShape_iff; auto).
    unfold matchDate. rewrite S. split; [reflexivity|].
    rewrite E. reflexivity.
  - intros H. apply dateShape_none in H. unfold matchDate. rewrite H. auto.
Qed.

(** C6, as the specification states it, fails: the title is not the text
    that remains once the marker and the date token are taken away, but that
    text without the white space around it. *)
Lemma fallback_title_is_trimmed :
  exists item,
    newsLink [] 0 datedAnchor [] = [item]
    /\ date item = "03/15/24"
    /\ title item = "New Update -"
    /\ titleAndDate_spec (Cheerio.text [datedAnchor]) = (" New Update - ", "03/15/24")
    /\ title item <> fst (titleAndDate_spec (Cheerio.text [datedAnchor])).
Proof.
  eexists. split; [vm_compute; reflexivity|].
  repeat split. discriminate.
Qed.

Section Order.

Variable LocalTZA : Z -> Z.

(** C4, as the code has it. When local midnights keep the order of their
    days and every date the fallback path extracted is a real date, the
    items come out with the newest first by the calendar and the undated
    last, cut to [limit]. The items dated 03/01/24 and 02/15/24 and an
    undated one come out in that order however they went in, and 01/01/24
    comes before 12/31/23, which the order of the strings would not give. *)
Theorem fallback_newest_first
  (doc : document) (allImages : list image) (limit : nat) :
  midnightsInOrder LocalTZA ->
  Forall wellDated (each (newsLink allImages) 0 (Cheerio.select doc "a") []) ->
  (exists sorted,
      Permutation (each (newsLink allImages) 0 (Cheerio.select doc "a") []) sorted
      /\ StronglySorted newestFirst sorted
      /\ fallback LocalTZA doc allImages limit = firstn limit sorted)
  /\ (forall l,
        Permutation
          [sampleItem "03/01/24"; sampleItem "02/15/24"; sampleItem EmptyString] l ->
        V8.slice (V8.sort (compareNews LocalTZA) l) 3
        = [sampleItem "03/01/24"; sampleItem "02/15/24"; sampleItem EmptyString])
  /\ V8.sort (compareNews LocalTZA) [sampleItem "12/31/23"; sampleItem "01/01/24"]
     = [sampleItem "01/01/24"; sampleItem "12/31/23"].
Proof.
  intros tz Hw. split; [|split].
  - exists (V8.sort (compareNews LocalTZA)
                    (each (newsLink allImages) 0 (Cheerio.select doc "a") [])).
    split; [apply sort_permutation|]. split; [now apply sort_newestFirst|].
    reflexivity.
  - intros l Hl. now rewrite (sort_three_samples LocalTZA tz l Hl).
  - now apply sort_two_samples.
Qed.

End Order.

(** C4, as the specification states it, fails: a token that the pattern
    takes for a date and that is no date, here 25/12/23, gives no time value,
    so no comparison with it tells anything, and the items on its two sides
    stay as the page has them, the older one first. *)
Lemma fallback_unparsed_date_breaks_order :
  exists items,
    fetchNintendoNews lower utc online (parsed listingWithBadDate) 5 = Normal items
    /\ map date items = ["01/01/24"; "25/12/23"; "03/01/24"]
    /\ Date_valueOf utc "25/12/23" = None
    /\ ~ StronglySorted newestFirst items.
Proof.
  eexists. split; [vm_compute; reflexivity|].
  split; [reflexivity|]. split; [reflexivity|].
  intros H. apply StronglySorted_inv in H. destruct H as [_ H].
  apply Forall_cons_iff in H. destruct H as [_ H].
  apply Forall_cons_iff in H. destruct H as [H _].
  destruct H as [H|(_ & _ & H)]; [discriminate|].
  cbv - [Z.lt Z.le] in H. lia.
Qed.

(** ** Titles carry no leading white space *)

Lemma trimStart_head (s : string) :
  Js.trimStart s = EmptyString
  \/ exists c t, Js.trimStart s = String c t /\ Js.isWhiteSpace c = false.
Proof.
  induction s as [|c s IH]; [now left|]. simpl.
  destruct (Js.isWhiteSpace c) eqn:E; [exact IH|].
  right. now exists c, s.
Qed.

Lemma trimStart_trim (s : string) : Js.trimStart (Js.trim s) = Js.trim s.
Proof.
  unfold Js.trim. destruct (trimStart_head s) as [->|(c & t & -> & Hc)]; [reflexivity|].
  cbn [Js.trimEnd]. destruct (Js.trimEnd t); rewrite ?Hc; simpl; now rewrite Hc.
Qed.

Lemma derivedTitle_trimmed (element : cursor) :
  Js.trimStart (derivedTitle element) = derivedTitle element.
Proof.
  unfold derivedTitle.
  repeat match goal with
         | |- context [if Js.isEmpty ?t then _ else _] => destruct (Js.isEmpty t)
         end; apply trimStart_trim.
Qed.

Lemma buildItem_trimmed (element : cursor) (item : NewsItem) :
  buildItem element = Some item -> Js.trimStart (title item) = title item.
Proof.
  unfold buildItem. destruct (_ || _); [|discriminate].
  intros H. injection H as <-. cbn [title].
  destruct (Js.isEmpty (derivedTitle element)); [reflexivity|].
  apply derivedTitle_trimmed.
Qed.

Lemma newsLinks_trimmed (allImages : list image) (anchors : list cursor) :
  Forall (fun item => Js.trimStart (title item) = title item)
         (each (newsLink allImages) 0 anchors []).
Proof.
  apply each_invariant; [|constructor].
  intros i el s Hs. unfold newsLink.
  destruct (Cheerio.attr [el] "href"); [|assumption].
  destruct (_ && _ && _); [|assumption].
  unfold push. apply Forall_app. split; [assumption|].
  constructor; [|constructor]. cbn [title].
  destruct (matchDate _); apply trimStart_trim.
Qed.

(** Every title [fetchNintendoNews] hands to the title-length guard starts
    with a character that is no white space. *)
Lemma parseListing_titles_trimmed
  (toLowerCase : string -> string) (LocalTZA : Z -> Z)
  (doc : document) (limit : nat) :
  Forall (fun item => Js.trimStart (title item) = title item)
         (parseListing toLowerCase LocalTZA doc limit).
Proof.
  unfold parseListing.
  destruct (selectSelector doc potentialSelectors EmptyString 0) as [sel n].
  destruct (Js.isEmpty sel).
  - unfold fallback, V8.slice. rewrite Forall_forall. intros item Hin.
    apply firstn_subset in Hin.
    apply (Permutation_in _ (Permutation_sym (sort_permutation _ _))) in Hin.
    pose proof (newsLinks_trimmed
                  (each (collectImage toLowerCase) 0 (Cheerio.select doc "img") [])
                  (Cheerio.select doc "a")) as H.
    rewrite Forall_forall in H. now apply H.
  - unfold structured. rewrite each_newsItem.
    rewrite Forall_forall. intros item Hin. unfold retained in Hin.
    apply in_flat_map in Hin. destruct Hin as (e & _ & He).
    destruct (buildItem e) as [it|] eqn:B; [|contradiction].
    destruct He as [<-|[]]. now apply (buildItem_trimmed e).
Qed.

(** ** Links *)

Lemma fallbackLink_absolute (href : string) :
  Js.includes href "://" = false -> isAbsolute (fallbackLink href) = true.
Proof.
  intros H. unfold fallbackLink. rewrite H. cbn [negb].
  destruct (Js.startsWith href "/"); reflexivity.
Qed.

Lemma selectorLink_unchanged (element : cursor) (href : string) :
  Cheerio.attr (Cheerio.find element "a") "href" = Some href ->
  href <> EmptyString ->
  Js.startsWith href "/" = false ->
  selectorLink element = href.
Proof.
  intros E Hne Hs. unfold selectorLink. rewrite E.
  assert (Js.truthy (Some href) = true) as T by (destruct href; [contradiction | reflexivity]).
  rewrite T. cbn [negb andb]. rewrite T, Hs. cbn [andb].
  unfold Js.orString, Js.or. now rewrite T.
Qed.

(** C2. The selector path stores a link that does not start with a slash as
    it stands: on a listing whose first matching node links to
    [whatsnew/direct], the item has that relative link. The fallback path
    resolves every link in which [://] does not occur. *)
Theorem selector_path_keeps_relative_link :
  (forall element href,
      Cheerio.attr (Cheerio.find element "a") "href" = Some href ->
      href <> EmptyString ->
      Js.startsWith href "/" = false ->
      selectorLink element = href)
  /\ (exists item rest,
         fetchNintendoNews lower utc online (parsed listingWithRelativeLink) 5
         = Normal (item :: rest)
         /\ link item = "whatsnew/direct"
         /\ isAbsolute (link item) = false)
  /\ (forall href,
         Js.includes href "://" = false -> isAbsolute (fallbackLink href) = true).
Proof.
  split; [exact selectorLink_unchanged | split; [|exact fallbackLink_absolute]].
  eexists. eexists. split; [vm_compute; reflexivity|]. split; reflexivity.
Qed.

(** ** The claims at sample inputs *)

Lemma utc_midnights : midnightsInOrder utc.
Proof. unfold midnightsInOrder, utc, JsDate.msPerDay. intros d1 d2 H. lia. Qed.

Lemma selector_cascade_first_match_sample :
  fst (selectSelector listingWithRelativeLink potentialSelectors EmptyString 0)
  = ".news-item"
  /\ parseListing lower utc listingWithRelativeLink 5
     = structured listingWithRelativeLink ".news-item" 5.
Proof.
  apply (proj1 (selector_cascade_first_match lower utc listingWithRelativeLink 5)
               [".WhatIsNewPage-module__item"] ".news-item"
               (skipn 2 potentialSelectors)).
  - reflexivity.
  - repeat constructor.
  - vm_compute. lia.
Defined.

Lemma fetchArticleDetails_never_raises_sample :
  fetchArticleDetails offline (parsed barePage) NINTENDO_NEWS_URL = Normal defaultDetails
  /\ fetchArticleDetails online (parsed barePage) NINTENDO_NEWS_URL = Normal defaultDetails.
Proof.
  split.
  - apply (proj1 (proj2 (fetchArticleDetails_never_raises offline (parsed barePage)
                           NINTENDO_NEWS_URL)) "ECONNREFUSED").
    reflexivity.
  - apply (proj2 (proj2 (proj2 (fetchArticleDetails_never_raises online (parsed barePage)
                                  NINTENDO_NEWS_URL))) "<html>" barePage).
    + reflexivity.
    + reflexivity.
    + repeat constructor.
Defined.

Lemma fetchNintendoNews_never_raises_sample :
  fetchNintendoNews lower utc offline (parsed flatListing) 5 = Normal [].
Proof.
  apply (proj1 (proj2 (fetchNintendoNews_never_raises lower utc offline
                         (parsed flatListing) 5)) "ECONNREFUSED").
  reflexivity.
Defined.

Lemma title_guard_first_period_sample :
  (truncateTitle titleWithPeriod "About"
   = (repeatChar "a" 120 ++ ".",
      repeatChar "a" 139 ++ Js.newline ++ Js.newline ++ "About")
   /\ String.length (fst (truncateTitle titleWithPeriod "About")) = 121)
  /\ String.length (fst (truncateTitle titleWithoutPeriod EmptyString)) = 253.
Proof.
  assert (250 < String.length titleWithPeriod) as L1 by (vm_compute; lia).
  assert (10 < String.length (repeatChar "a" 120) < 240) as L2 by (vm_compute; lia).
  assert (250 < String.length titleWithoutPeriod) as L3 by (vm_compute; lia).
  destruct (proj1 (proj2 (title_guard_first_period titleWithPeriod "About")) L1
              (repeatChar "a" 120) (repeatChar "a" 139) eq_refl eq_refl L2 eq_refl)
    as [A B].
  split; [split|].
  - rewrite A. reflexivity.
  - rewrite B. reflexivity.
  - exact (proj2 (proj2 (proj2 (title_guard_first_period titleWithoutPeriod EmptyString))
                    L3 (or_introl eq_refl))).
Defined.

Lemma fallback_title_and_date_sample :
  exists item,
    newsLink [] 0 sampleAnchor [] = [item]
    /\ date item = "02/15/24" /\ title item = "Second".
Proof.
  destruct (fallback_title_and_date [] 0 sampleAnchor [] "/us/whatsnew/b"
              eq_refl ltac:(discriminate) eq_refl) as (item & E & _ & Hd & _).
  exists item. split; [exact E|].
  apply (Hd "0"%char "2"%char "1"%char "5"%char "2"%char "4"%char " Second");
    reflexivity.
Defined.

Lemma fallback_newest_first_sample :
  (exists sorted,
      Permutation (each (newsLink []) 0 (Cheerio.select flatListing "a") []) sorted
      /\ StronglySorted newestFirst sorted
      /\ fallback utc flatListing [] 2 = firstn 2 sorted)
  /\ (forall l,
        Permutation
          [sampleItem "03/01/24"; sampleItem "02/15/24"; sampleItem EmptyString] l ->
        V8.slice (V8.sort (compareNews utc) l) 3
        = [sampleItem "03/01/24"; sampleItem "02/15/24"; sampleItem EmptyString])
  /\ V8.sort (compareNews utc) [sampleItem "12/31/23"; sampleItem "01/01/24"]
     = [sampleItem "01/01/24"; sampleItem "12/31/23"].
Proof.
  apply (fallback_newest_first utc flatListing [] 2 utc_midnights).
  vm_compute. repeat constructor; (now left) || (now right).
Defined.

(** The sample listing through the whole function. *)
Lemma flatListing_newest_first :
  exists items,
    fetchNintendoNews lower utc online (parsed flatListing) 5 = Normal items
    /\ map date items = ["03/01/24"; "02/15/24"; EmptyString]
    /\ map title items = ["Third"; "Second"; "A plain note"]
    /\ map link items
       = [ "https://www.nintendo.com/us/whatsnew/c";
           "https://www.nintendo.com/us/whatsnew/b";
           "https://www.nintendo.com/us/whatsnew/a" ].
Proof.
  eexists. split; [vm_compute; reflexivity|]. repeat split.
Qed.

(** * Further properties of the code *)

(** ** More on strings *)

Module MoreStrings.

Import Js.

Lemma startsWith_append_l (a b p : string) :
  startsWith a p = true -> startsWith (a ++ b) p = true.
Proof.
  revert p. induction a as [|c a IH]; intros [|d p]; simpl; auto; try discriminate.
  - now destruct b.
  - intros H. apply andb_true_iff in H. destruct H as [-> H]. simpl. now apply IH.
Qed.

Lemma includes_append_l (a b p : string) :
  includes a p = true -> includes (a ++ b) p = true.
Proof.
  induction a as [|c a IH]; intros H.
  - cbn [includes] in H. rewrite orb_false_r in H.
    destruct p; [|discriminate]. cbn [append]. destruct b; reflexivity.
  - cbn [includes append] in *. apply orb_true_iff in H. destruct H as [H|H].
    + change (String c (a ++ b)) with (String c a ++ b).
      now rewrite (startsWith_append_l _ b _ H).
    + rewrite (IH H). apply orb_true_r.
Qed.

Lemma startsWith_prefix (s p q : string) :
  startsWith s (p ++ q) = true -> startsWith s p = true.
Proof.
  revert s. induction p as [|d p IH]; intros s H; [apply StringFacts.startsWith_empty|].
  destruct s as [|c s]; [discriminate|]. cbn [append startsWith] in *.
  apply andb_true_iff in H. destruct H as [-> H]. simpl. now apply IH.
Qed.

Lemma includes_prefix (s p q : string) :
  includes s (p ++ q) = true -> includes s p = true.
Proof.
  induction s as [|c s IH]; cbn [includes]; intros H.
  - rewrite orb_false_r in *. now apply startsWith_prefix with (q := q).
  - apply orb_true_iff in H. destruct H as [H|H].
    + now rewrite (startsWith_prefix _ _ _ H).
    + rewrite (IH H). apply orb_true_r.
Qed.

Lemma trimEnd_length (s : string) : String.length (trimEnd s) <= String.length s.
Proof.
  induction s as [|c s IH]; simpl; [lia|].
  destruct (trimEnd s); [destruct (isWhiteSpace c)|]; simpl in *; lia.
Qed.

Lemma trim_length (s : string) : String.length (trim s) <= String.length s.
Proof.
  unfold trim. etransitivity; [apply trimEnd_length | apply StringFacts.trimStart_length].
Qed.

Lemma isEmpty_false (s : string) : isEmpty s = false <-> s <> EmptyString.
Proof. destruct s; simpl; split; congruence. Qed.

End MoreStrings.

(** ** What every returned item satisfies *)

Lemma retained_Forall (Q : NewsItem -> Prop) (nodes : list cursor) :
  (forall element item, buildItem element = Some item -> Q item) ->
  Forall Q (retained nodes).
Proof.
  intros H. rewrite Forall_forall. intros item Hin. unfold retained in Hin.
  apply in_flat_map in Hin. destruct Hin as (e & _ & He).
  destruct (buildItem e) as [it|] eqn:B; [|contradiction].
  destruct He as [<-|[]]. now apply (H e).
Qed.

Lemma structured_Forall (Q : NewsItem -> Prop) (doc : document) (selector : string)
  (limit : nat) :
  (forall element item, buildItem element = Some item -> Q item) ->
  Forall Q (structured doc selector limit).
Proof.
  intros H. unfold structured. rewrite each_newsItem. now apply retained_Forall.
Qed.

Lemma fallback_Forall (Q : NewsItem -> Prop) (LocalTZA : Z -> Z) (doc : document)
  (allImages : list image) (limit : nat) :
  (forall i el s, Forall Q s -> Forall Q (newsLink allImages i el s)) ->
  Forall Q (fallback LocalTZA doc allImages limit).
Proof.
  intros H. unfold fallback, V8.slice.
  rewrite Forall_forall. intros item Hin.
  apply firstn_subset in Hin.
  apply (Permutation_in _ (Permutation_sym (sort_permutation _ _))) in Hin.
  revert item Hin. apply Forall_forall.
  apply each_invariant; [exact H | constructor].
Qed.

Lemma newsLink_pushes (Q : NewsItem -> Prop) (allImages : list image) :
  (forall el href item,
      Cheerio.attr [el] "href" = Some href -> href <> EmptyString ->
      newsLink allImages 0 el [] = [item] -> Q item) ->
  forall i el s, Forall Q s -> Forall Q (newsLink allImages i el s).
Proof.
  intros H i el s Hs. specialize (H el).
  unfold newsLink in *.
  destruct (Cheerio.attr [el] "href") as [href|]; [|assumption].
  destruct (negb (Js.isEmpty (Js.trim (Cheerio.text [el])))); [|assumption].
  destruct (Js.truthy (Some href)) eqn:T; [|assumption].
  destruct (Js.includes (Js.trim (Cheerio.text [el])) "Read more"); [|assumption].
  cbn [andb] in *. unfold push. apply Forall_app. split; [assumption|].
  constructor; [|constructor].
  apply (H href); [reflexivity | | reflexivity].
  intros ->. discriminate.
Qed.

(** X1. Whatever the page and the host, [fetchNintendoNews] answers with at
    most [limit] items. *)
Theorem fetchNintendoNews_at_most_limit
  (toLowerCase : string -> string) (LocalTZA : Z -> Z)
  (axios_get : string -> completion string) (load : string -> completion document)
  (limit : nat) :
  (forall doc, length (parseListing toLowerCase LocalTZA doc limit) <= limit)
  /\ exists items,
      fetchNintendoNews toLowerCase LocalTZA axios_get load limit = Normal items
      /\ length items <= limit.
Proof.
  assert (forall doc, length (parseListing toLowerCase LocalTZA doc limit) <= limit) as L.
  { intros doc. unfold parseListing.
    destruct (selectSelector doc potentialSelectors EmptyString 0) as [sel n].
    destruct (Js.isEmpty sel).
    - unfold fallback, V8.slice. rewrite length_firstn. lia.
    - unfold structured. rewrite each_newsItem, Nat.sub_0_r. simpl.
      etransitivity; [apply retained_length|]. rewrite length_firstn. lia. }
  split; [exact L|]. unfold fetchNintendoNews.
  destruct (axios_get NINTENDO_NEWS_URL) as [html|e]; simpl.
  - destruct (load html) as [doc|e]; simpl; eexists; split; try reflexivity; simpl;
      [apply L | lia].
  - eexists. split; [reflexivity | simpl; lia].
Qed.

(** X2. Every item of the selector path has a title and a link that are not
    empty, and an image address that is absent, empty or starts with
    [http]. *)
Theorem selector_items_complete (doc : document) (selector : string) (limit : nat) :
  Forall (fun item =>
            title item <> EmptyString
            /\ link item <> EmptyString
            /\ (imageUrl item = None
                \/ imageUrl item = Some EmptyString
                \/ exists i, imageUrl item = Some i /\ Js.startsWith i "http" = true))
         (structured doc selector limit).
Proof.
  apply structured_Forall. intros element item. unfold buildItem.
  destruct (_ || _); [|discriminate].
  intros H. injection H as <-. cbn [title link imageUrl]. split; [|split].
  - destruct (derivedTitle element); simpl; discriminate.
  - unfold selectorLink, Js.orString, Js.or.
    match goal with |- context [Js.truthy ?v] => destruct (Js.truthy v) eqn:T end.
    + match type of T with Js.truthy ?v = true => destruct v as [[|c l]|] end;
        simpl in T; try discriminate.
    + discriminate.
  - match goal with
    | |- context [match ?v with Some _ => _ | None => ?v end = None] =>
        destruct v as [i|] eqn:E
    end; [|now left].
    destruct i as [|c i]; [right; left; reflexivity|].
    right. right. cbn [Js.truthy Js.isEmpty negb andb].
    destruct (Js.startsWith (String c i) "http") eqn:S; cbn [negb].
    + eexists. split; [reflexivity | exact S].
    + eexists. split; [reflexivity | reflexivity].
Qed.

Lemma fallbackLink_scheme (href : string) :
  Js.includes (fallbackLink href) "://" = true.
Proof.
  unfold fallbackLink. destruct (Js.includes href "://") eqn:E; cbn [negb]; [exact E|].
  destruct (Js.startsWith href "/").
  - apply MoreStrings.includes_append_l. reflexivity.
  - apply MoreStrings.includes_append_l. reflexivity.
Qed.

Lemma each_newsLink_links (allImages : list image) (anchors l : list cursor) :
  forall i s,
    (forall el, In el l -> In el anchors) ->
    Forall (fun item =>
              Js.includes (link item) "://" = true
              /\ (Js.startsWith (link item) origin = true
                  \/ exists el, In el anchors
                                /\ Cheerio.attr [el] "href" = Some (link item))) s ->
    Forall (fun item =>
              Js.includes (link item) "://" = true
              /\ (Js.startsWith (link item) origin = true
                  \/ exists el, In el anchors
                                /\ Cheerio.attr [el] "href" = Some (link item)))
           (each (newsLink allImages) i l s).
Proof.
  induction l as [|el l IH]; intros i s Hsub Hs; simpl; [assumption|].
  apply IH; [intros e He; apply Hsub; now right|].
  unfold newsLink.
  destruct (Cheerio.attr [el] "href") as [href|] eqn:A; [|assumption].
  destruct (_ && _ && _); [|assumption].
  unfold push. apply Forall_app. split; [assumption|].
  constructor; [|constructor]. cbn [link].
  split; [apply fallbackLink_scheme|].
  unfold fallbackLink. destruct (Js.includes href "://"); cbn [negb].
  - right. exists el. split; [apply Hsub; now left | exact A].
  - left. destruct (Js.startsWith href "/").
    + apply StringFacts.startsWith_append.
    + apply StringFacts.startsWith_append.
Qed.

(** X3. Every item of the fallback path has a link in which [://] occurs:
    the link of the anchor itself when it has one, the origin of the site
    put in front of it otherwise. *)
Theorem fallback_links_have_scheme
  (LocalTZA : Z -> Z) (doc : document) (allImages : list image) (limit : nat) :
  Forall (fun item =>
            Js.includes (link item) "://" = true
            /\ (Js.startsWith (link item) origin = true
                \/ exists el, In el (Cheerio.select doc "a")
                              /\ Cheerio.attr [el] "href" = Some (link item)))
         (fallback LocalTZA doc allImages limit).
Proof.
  unfold fallback, V8.slice. rewrite Forall_forall. intros item Hin.
  apply firstn_subset in Hin.
  apply (Permutation_in _ (Permutation_sym (sort_permutation _ _))) in Hin.
  revert item Hin. apply Forall_forall.
  apply each_newsLink_links; [auto | constructor].
Qed.

(** X4. The date of every item of the fallback path is empty or is a token
    of two digits, a slash, two digits, a slash and two digits: nothing else
    reaches [new Date] in the comparator. *)
Theorem fallback_dates_are_tokens
  (LocalTZA : Z -> Z) (doc : document) (allImages : list image) (limit : nat) :
  Forall (fun item =>
            date item = EmptyString
            \/ exists d1 d2 d3 d4 d5 d6,
                isDateToken d1 d2 d3 d4 d5 d6
                /\ date item = dateToken d1 d2 d3 d4 d5 d6)
         (fallback LocalTZA doc allImages limit).
Proof.
  apply fallback_Forall. intros i el s Hs. unfold newsLink.
  destruct (Cheerio.attr [el] "href"); [|assumption].
  destruct (_ && _ && _); [|assumption].
  unfold push. apply Forall_app. split; [assumption|].
  constructor; [|constructor]. cbn [date]. unfold matchDate.
  destruct (dateShape _) as [[[[[[[d1 d2] d3] d4] d5] d6] rest]|] eqn:E; [|now left].
  right. apply dateShape_iff in E. destruct E as [Hd _].
  exists d1, d2, d3, d4, d5, d6. auto.
Qed.

(** X5. Sorting loses and repeats no item: the fallback path returns the
    first [limit] items of a rearrangement of the kept anchors' items, all of
    them when there are no more than [limit]. *)
Theorem fallback_keeps_every_anchor
  (LocalTZA : Z -> Z) (doc : document) (allImages : list image) (limit : nat) :
  let newsLinks := each (newsLink allImages) 0 (Cheerio.select doc "a") [] in
  (exists sorted,
      Permutation newsLinks sorted
      /\ fallback LocalTZA doc allImages limit = firstn limit sorted)
  /\ length (fallback LocalTZA doc allImages limit) = Nat.min limit (length newsLinks)
  /\ (length newsLinks <= limit ->
      Permutation newsLinks (fallback LocalTZA doc allImages limit)).
Proof.
  intros newsLinks. unfold fallback, V8.slice. fold newsLinks.
  pose proof (sort_permutation (compareNews LocalTZA) newsLinks) as P.
  split; [|split].
  - eexists. split; [exact P | reflexivity].
  - rewrite length_firstn, <- (Permutation_length P). reflexivity.
  - intros H. rewrite firstn_all2; [exact P|].
    now rewrite <- (Permutation_length P).
Qed.

(** X6. Every item of the fallback path has the placeholder description and
    a link, so the handler fetches the details of each of them. *)
Theorem fallback_items_need_details
  (LocalTZA : Z -> Z) (doc : document) (allImages : list image) (limit : nat) :
  Forall (fun item => needsDetails item = true)
         (fallback LocalTZA doc allImages limit).
Proof.
  apply fallback_Forall. apply newsLink_pushes.
  intros el href item A Hne E. unfold newsLink in E. rewrite A in E.
  destruct (_ && _ && _); [|discriminate].
  unfold push in E. cbn [app] in E. injection E as <-.
  unfold needsDetails. cbn [description link imageUrl].
  rewrite String.eqb_refl, orb_true_r. cbn [andb].
  pose proof (fallbackLink_scheme href) as S.
  destruct (fallbackLink href); [discriminate | reflexivity].
Qed.

Section Details.

Variable axios_get : string -> completion string.
Variable load : string -> completion document.

(** X7. The description [fetchArticleDetails] answers with is never empty. *)
Theorem fetchArticleDetails_description_not_empty (url : string) :
  exists details,
    fetchArticleDetails axios_get load url = Normal details
    /\ details_description details <> EmptyString.
Proof.
  unfold fetchArticleDetails.
  destruct (axios_get url) as [html|e]; simpl;
    [|eexists; split; [reflexivity | discriminate]].
  destruct (load html) as [doc|e]; simpl;
    [|eexists; split; [reflexivity | discriminate]].
  eexists. split; [reflexivity|]. cbn [details_description].
  unfold Js.orString.
  match goal with |- context [Js.or ?a (Some placeholder)] => generalize a end.
  intros a. unfold Js.or. destruct (Js.truthy a) eqn:T; [|discriminate].
  destruct a as [[|c s]|]; simpl in T; try discriminate.
Qed.



Lemma enrich_fields (news : NewsItem) :
  exists news',
    enrich axios_get load news = Normal news'
    /\ title news' = title news
    /\ link news' = link news
    /\ date news' = date news
    /\ (Js.truthy (imageUrl news) = true -> imageUrl news' = imageUrl news)
    /\ (description news <> placeholder -> description news' = description news).
Proof.
  unfold enrich. destruct (needsDetails news); [|exists news; repeat split; auto].
  destruct (fetchArticleDetails axios_get load (link news)) as [d|e]; simpl;
    [|exists news; repeat split; auto].
  eexists. split; [reflexivity|]. unfold mergeDetails.
  cbn [title link date imageUrl description]. repeat split.
  - intros T. now rewrite T.
  - intros H. apply String.eqb_neq in H. now rewrite H.
Qed.

(** X9. Whatever the network answers, the handler's fetch of the details
    leaves the title, the link and the date of an item as they are, keeps an
    image the item has and keeps a description that is not the placeholder. *)
Theorem enrich_keeps_own_fields (news : NewsItem) :
  exists news',
    enrich axios_get load news = Normal news'
    /\ title news' = title news
    /\ link news' = link news
    /\ date news' = date news
    /\ (Js.truthy (imageUrl news) = true -> imageUrl news' = imageUrl news)
    /\ (description news <> placeholder -> description news' = description news).
Proof. exact (enrich_fields news). Qed.

(** X10. When the article gives the default details, as it does when the
    request fails or the page has nothing to offer, the item is left as it
    is. *)
Theorem enrich_default_is_identity (news : NewsItem) :
  fetchArticleDetails axios_get load (link news) = Normal defaultDetails ->
  enrich axios_get load news = Normal news.
Proof.
  intros H. unfold enrich. destruct (needsDetails news); [|reflexivity].
  rewrite H. simpl. f_equal. unfold mergeDetails, defaultDetails.
  cbn [details_imageUrl details_description Js.isEmpty negb].
  rewrite andb_false_r, String.eqb_refl. cbn [negb]. rewrite andb_false_r.
  now destruct news.
Qed.


End Details.

(** ** The embed of an item *)

Lemma truncateTitle_length (title description : string) :
  String.length (fst (truncateTitle title description)) <= 253.
Proof.
  unfold truncateTitle.
  destruct (negb (Js.isEmpty title) && (250 <? String.length title)%nat) eqn:C.
  - destruct ((10 <? Js.indexOf title ".")%Z && (Js.indexOf title "." <? 240)%Z) eqn:R;
      cbn [fst].
    + apply andb_true_iff in R. destruct R as [R1 R2].
      apply Z.ltb_lt in R1, R2.
      etransitivity; [apply MoreStrings.trim_length|].
      rewrite StringFacts.substring_0, StringFacts.length_take. lia.
    + rewrite StringFacts.substring_0, StringFacts.length_append, StringFacts.length_take.
      cbn [String.length]. lia.
  - cbn [fst]. apply andb_false_iff in C. destruct C as [C|C].
    + destruct title; [simpl; lia | discriminate].
    + apply Nat.ltb_ge in C. lia.
Qed.

Lemma embedDescription_length (description d : string) :
  embedDescription description = Some d ->
  0 < String.length d <= 4003
  /\ (String.length description <= 4000 -> d = description)
  /\ Js.take 4000 d = Js.take 4000 description.
Proof.
  unfold embedDescription.
  destruct (Js.isEmpty description) eqn:E; cbn [negb]; [discriminate|].
  assert (0 < String.length description) as Hpos
      by (destruct description; [discriminate | simpl; lia]).
  destruct (Nat.ltb_spec 4000 (String.length description)) as [Hlong|Hshort];
    intros H; injection H as <-.
  - rewrite StringFacts.substring_0, StringFacts.length_append, StringFacts.length_take.
    cbn [String.length]. split; [lia|]. split; [lia|].
    assert (forall n s t, n <= String.length s -> Js.take n (s ++ t) = Js.take n s) as T.
    { induction n as [|n IH]; intros [|a s] t Hn; simpl in *; try lia; auto.
      f_equal. apply IH. lia. }
    rewrite T by (rewrite StringFacts.length_take; lia).
    assert (forall n s, Js.take n (Js.take n s) = Js.take n s) as I.
    { induction n as [|n IH]; intros [|a s]; simpl; auto. now rewrite IH. }
    apply I.
  - split; [lia|]. split; reflexivity.
Qed.

(** X11. The embed of an item has a title of at most 253 characters, the
    link of the item as its address, and, when it has a description, one of
    1 to 4003 characters; the date and the image are those of the item when
    they are not empty. *)
Theorem newsEmbed_within_bounds (news : NewsItem) :
  String.length (embed_title (newsEmbed news)) <= 253
  /\ embed_url (newsEmbed news) = link news
  /\ (forall d, embed_description (newsEmbed news) = Some d ->
                0 < String.length d <= 4003)
  /\ (forall d, embed_published (newsEmbed news) = Some d ->
                d = date news /\ d <> EmptyString)
  /\ (forall i, embed_image (newsEmbed news) = Some i ->
                imageUrl news = Some i /\ i <> EmptyString).
Proof.
  unfold newsEmbed.
  pose proof (truncateTitle_length (title news) (description news)) as T.
  destruct (truncateTitle (title news) (description news)) as [t d0].
  cbn [fst embed_title embed_url embed_description embed_published embed_image] in *.
  split; [exact T|]. split; [reflexivity|]. split; [|split].
  - intros d H. now apply embedDescription_length in H.
  - intros d. destruct (date news) eqn:E; cbn [Js.isEmpty negb]; [discriminate|].
    intros H. injection H as <-. split; [reflexivity | discriminate].
  - intros i. destruct (imageUrl news) as [[|c r]|]; cbn [Js.truthy Js.isEmpty negb];
      try discriminate.
    intros H. injection H as <-. split; [reflexivity | discriminate].
Qed.

(** ** Mentions *)

(** X12. No message gets the reply of the sixth branch of the
    [messageCreate] handler: a text in which [nitendo news] occurs has
    [nitendo] in it and is answered by an earlier branch. A text with
    [nitendo] in it is always answered, by one of the two command hints or
    by the remark on the spelling. *)
Theorem messageCreate_dead_branch
  (toLowerCase : string -> string) (authorIsBot mentioned : bool) (content : string) :
  messageCreate toLowerCase authorIsBot mentioned content <> Some NewsCommandHintAgain
  /\ replyTo content <> NewsCommandHintAgain
  /\ (Js.includes content "nitendo" = true ->
      replyTo content = NewsCommandHint
      \/ replyTo content = SetupCommandHint
      \/ replyTo content = SpellingRemark).
Proof.
  assert (forall c, replyTo c <> NewsCommandHintAgain) as D.
  { intros c. unfold replyTo.
    repeat match goal with
           | |- context [if ?b then _ else _] => destruct b eqn:?; try discriminate
           end.
    match goal with
    | H : Js.includes c "nitendo news" = true |- _ =>
        apply (MoreStrings.includes_prefix c "nitendo" " news") in H
    end.
    congruence. }
  split; [|split].
  - unfold messageCreate. destruct authorIsBot; [discriminate|].
    destruct mentioned; [|discriminate].
    intros H. injection H as H. now apply D in H.
  - apply D.
  - intros H. unfold replyTo.
    destruct (String.eqb_spec content "hello") as [->|_]; [discriminate|].
    destruct (String.eqb_spec content "hi") as [->|_]; [discriminate|].
    destruct (String.eqb_spec content "help") as [->|_]; [discriminate|].
    destruct (String.eqb_spec content "commands") as [->|_]; [discriminate|].
    cbn [orb]. rewrite H.
    destruct (_ || _); [now left|].
    destruct (Js.includes content "setupchannels"); auto.
Qed.

Lemma span_digits (digits rest : string) :
  allDigits digits = true ->
  Cheerio.span Js.isDigit (digits ++ String ">" rest) = (digits, String ">" rest).
Proof.
  induction digits as [|c d IH]; intros H; [reflexivity|].
  cbn [allDigits] in H. apply andb_true_iff in H. destruct H as [Hc Hd].
  cbn [append Cheerio.span]. rewrite Hc, (IH Hd). reflexivity.
Qed.

Lemma stripMentionsFrom_skip (a s : string) :
  stripMentionsFrom (String.length a) (a ++ s) = stripMentionsFrom 0 s.
Proof.
  induction a as [|c a IH]; [reflexivity|].
  cbn [String.length append stripMentionsFrom]. exact IH.
Qed.

Lemma stripMentions_eq (c : ascii) (s : string) :
  stripMentions (String c s)
  = match mentionLength (String c s) with
    | Some n => stripMentionsFrom (n - 1) s
    | None => String c (stripMentions s)
    end.
Proof. reflexivity. Qed.

(** X13. Taking the mentions away leaves a text without [<] as it is, and
    takes a mention [<@digits>] or [<@!digits>] off the front of a text. *)
Theorem stripMentions_removes_mentions :
  (forall s, Js.includes s "<" = false -> stripMentions s = s)
  /\ (forall digits rest,
        digits <> EmptyString -> allDigits digits = true ->
        stripMentions ("<@" ++ digits ++ ">" ++ rest) = stripMentions rest
        /\ stripMentions ("<@!" ++ digits ++ ">" ++ rest) = stripMentions rest).
Proof.
  split.
  - induction s as [|c s IH]; intros H; [reflexivity|].
    cbn [Js.includes] in H. apply orb_false_iff in H. destruct H as [H1 H2].
    rewrite stripMentions_eq.
    assert (Ascii.eqb c "<" = false) as E.
    { cbn [Js.startsWith] in H1. rewrite StringFacts.startsWith_empty in H1.
      now rewrite andb_true_r in H1. }
    assert (mentionLength (String c s) = None) as ->.
    { unfold mentionLength. destruct s; [reflexivity|]. now rewrite E. }
    now rewrite (IH H2).
  - intros digits rest Hne Hd.
    assert (Js.isEmpty digits = false) as Hn by (now apply MoreStrings.isEmpty_false).
    assert (exists d0 dr, digits = String d0 dr /\ Js.isDigit d0 = true) as (d0 & dr & Ed & Hd0).
    { destruct digits as [|d0 dr]; [contradiction|]. exists d0, dr.
      cbn [allDigits] in Hd. apply andb_true_iff in Hd. tauto. }
    assert (Ascii.eqb d0 "!" = false) as Hbang.
    { destruct (Ascii.eqb_spec d0 "!") as [->|]; [discriminate | reflexivity]. }
    subst digits. split.
    + cbn [append]. rewrite stripMentions_eq.
      assert (mentionLength (String "<" (String "@" (String d0 (dr ++ String ">" rest))))
              = Some (2 + 0 + String.length (String d0 dr) + 1)) as ->.
      { unfold mentionLength. cbn [Ascii.eqb Bool.eqb andb]. rewrite Hbang.
        change (String d0 (dr ++ String ">" rest)) with (String d0 dr ++ String ">" rest).
        rewrite (span_digits _ rest Hd). reflexivity. }
      replace (2 + 0 + String.length (String d0 dr) + 1 - 1)
        with (String.length ("@" ++ String d0 dr ++ ">")).
      2:{ cbn [append String.length]. rewrite StringFacts.length_append. simpl. lia. }
      replace (String "@" (String d0 (dr ++ String ">" rest)))
        with (("@" ++ String d0 dr ++ ">") ++ rest).
      2:{ cbn [append]. now rewrite StringFacts.append_assoc. }
      apply stripMentionsFrom_skip.
    + cbn [append]. rewrite stripMentions_eq.
      assert (mentionLength
                (String "<" (String "@" (String "!" (String d0 (dr ++ String ">" rest)))))
              = Some (2 + 1 + String.length (String d0 dr) + 1)) as ->.
      { unfold mentionLength. cbn [Ascii.eqb Bool.eqb andb].
        change (String d0 (dr ++ String ">" rest)) with (String d0 dr ++ String ">" rest).
        rewrite (span_digits _ rest Hd). reflexivity. }
      replace (2 + 1 + String.length (String d0 dr) + 1 - 1)
        with (String.length ("@!" ++ String d0 dr ++ ">")).
      2:{ cbn [append String.length]. rewrite StringFacts.length_append. simpl. lia. }
      replace (String "@" (String "!" (String d0 (dr ++ String ">" rest))))
        with (("@!" ++ String d0 dr ++ ">") ++ rest).
      2:{ cbn [append]. now rewrite StringFacts.append_assoc. }
      apply stripMentionsFrom_skip.
Qed.

(** ** The item as posted *)


(** ** Channels *)

Lemma findAllowedChannel_sound (cache : list channel) (names : list string) :
  forall ch name,
    findAllowedChannel cache names = Some (ch, name) ->
    In ch cache /\ In name names /\ channel_name ch = name /\ channel_type ch = 0.
Proof.
  induction names as [|n names IH]; intros ch name H; [discriminate|].
  cbn [findAllowedChannel] in H.
  destruct (find _ cache) as [found|] eqn:F.
  - injection H as <- <-. apply find_some in F. destruct F as [Hin Hf].
    apply andb_true_iff in Hf. destruct Hf as [Hn Ht].
    apply String.eqb_eq in Hn. apply Nat.eqb_eq in Ht.
    repeat split; auto. now left.
  - destruct (IH ch name H) as (H1 & H2 & H3 & H4). repeat split; auto. now right.
Qed.

(** X15. The channel the [nintendonews] command posts to is a text channel
    of the guild with the first allowed name, in the order of
    [ALLOWED_CHANNEL_NAMES], that a text channel has; there is none only
    when no text channel has an allowed name. *)
Theorem findAllowedChannel_first_text_channel (cache : list channel) (names : list string) :
  (forall ch name,
      findAllowedChannel cache names = Some (ch, name) ->
      In ch cache /\ In name names /\ channel_name ch = name /\ channel_type ch = 0)
  /\ (findAllowedChannel cache names = None
      <-> forall ch, In ch cache -> channel_type ch = 0 -> ~ In (channel_name ch) names)
  /\ (forall pre name post ch,
        names = (pre ++ name :: post)%list ->
        (forall ch', In ch' cache -> channel_type ch' = 0 -> ~ In (channel_name ch') pre) ->
        In ch cache -> channel_name ch = name -> channel_type ch = 0 ->
        exists ch', findAllowedChannel cache names = Some (ch', name)).
Proof.
  split; [|split].
  - apply findAllowedChannel_sound.
  - induction names as [|n names IH]; cbn [findAllowedChannel].
    + split; [intros _ ch _ _ [] | reflexivity].
    + destruct (find _ cache) as [found|] eqn:F.
      * split; [discriminate|]. intros H. exfalso.
        apply find_some in F. destruct F as [Hin Hf].
        apply andb_true_iff in Hf. destruct Hf as [Hn Ht].
        apply String.eqb_eq in Hn. apply Nat.eqb_eq in Ht.
        apply (H found Hin Ht). left. now symmetry.
      * rewrite IH. split.
        -- intros H ch Hin Ht [Hn|Hn]; [|now apply (H ch)].
           pose proof (find_none _ _ F ch Hin) as N. cbn beta in N.
           rewrite <- Hn, String.eqb_refl, Ht in N. discriminate.
        -- intros H ch Hin Ht Hn. apply (H ch Hin Ht). now right.
  - intros pre. revert names. induction pre as [|p pre IH];
      intros names name post ch -> Hpre Hin Hn Ht; cbn [app findAllowedChannel].
    + destruct (find _ cache) as [found|] eqn:F; [eauto|].
      pose proof (find_none _ _ F ch Hin) as N. cbn beta in N.
      rewrite Hn, String.eqb_refl, Ht in N. discriminate.
    + destruct (find _ cache) as [found|] eqn:F.
      * exfalso. apply find_some in F. destruct F as [Hf1 Hf2].
        apply andb_true_iff in Hf2. destruct Hf2 as [Hf2 Hf3].
        apply String.eqb_eq in Hf2. apply Nat.eqb_eq in Hf3.
        apply (Hpre found Hf1 Hf3). left. now symmetry.
      * apply (IH _ name post ch eq_refl); auto.
        intros ch' H1 H2 H3. apply (Hpre ch' H1 H2). now right.
Qed.


(** ** The pool of images *)

(** X17. Every image of the pool has an address that is neither empty nor
    relative to the root of the site: one that starts with a slash gets the
    origin in front. *)
Theorem allImages_addresses
  (toLowerCase : string -> string) (doc : document) :
  Forall (fun img => src img <> EmptyString /\ Js.startsWith (src img) "/" = false)
         (each (collectImage toLowerCase) 0 (Cheerio.select doc "img") []).
Proof.
  apply each_invariant; [|constructor].
  intros i img s Hs. unfold collectImage.
  destruct (Cheerio.attr [img] "src") as [a|]; [|assumption].
  destruct (Js.truthy (Some a)) eqn:T; [|assumption]. cbn [andb].
  destruct (_ || _); [|assumption].
  unfold push. apply Forall_app. split; [assumption|].
  constructor; [|constructor]. cbn [src].
  destruct (Js.startsWith a "/") eqn:S.
  - split; [discriminate | reflexivity].
  - split; [|exact S]. intros ->. discriminate.
Qed.

(** ** The properties at sample inputs *)


Lemma enrich_default_is_identity_sample :
  enrich offline (parsed articlePage) (sampleItem "03/01/24")
  = Normal (sampleItem "03/01/24").
Proof.
  apply enrich_default_is_identity. reflexivity.
Defined.

